(** * Wordplay: syntax-tree nodes, conflicts and step plans

    A shallow embedding of the node classes and helper functions of the
    Wordplay language implementation (TypeScript) that the checked
    properties are about, followed by the theorems.

    Conventions used throughout:
    - a JavaScript object has an identity; a node carries it as a [NodeId],
      and [===] on nodes is equality of identities;
    - [undefined] is [None]; an array is a [list];
    - a class whose source is outside the embedded files is represented by
      the results of the methods that the embedded code calls on it. *)

From Stdlib Require Import List String Ascii Bool Arith PeanoNat Lia.
Import ListNotations.

Set Warnings "-register-all".

#[local] Open Scope string_scope.
#[local] Open Scope list_scope.

(** Identity of a syntax-tree node (a JavaScript object reference). *)
Definition NodeId := nat.

(** ** JavaScript array helpers *)

(** [Array.prototype.find] on an array whose elements may be [undefined]:
    the first element satisfying the predicate, [undefined] when there is
    none.  An element that is itself [undefined] is returned as such. *)
Fixpoint js_find {A : Type} (p : option A -> bool) (l : list (option A)) : option A :=
  match l with
  | [] => None
  | x :: rest => if p x then x else js_find p rest
  end.

(** [t === undefined]. *)
Definition isUndefined {A : Type} (t : option A) : bool :=
  match t with
  | None => true
  | Some _ => false
  end.

(** Truthiness of a value that is an object or [undefined]. *)
Definition truthy {A : Type} (t : option A) : bool :=
  match t with
  | Some _ => true
  | None => false
  end.


(** ** Allocation of node identities

    [new C(...)] creates an object with an identity no existing object has.
    A computation that allocates threads the next unused identity. *)
Definition Alloc (A : Type) : Type := NodeId -> A * NodeId.

Definition ret {A : Type} (a : A) : Alloc A := fun next => (a, next).

Definition bind {A B : Type} (c : Alloc A) (k : A -> Alloc B) : Alloc B :=
  fun next => let (a, next') := c next in k a next'.

Definition fresh : Alloc NodeId := fun next => (next, S next).

Notation "x <- c ;; k" := (bind c (fun x => k))
  (at level 61, c at next level, right associativity).

(** ** Replacing a child (nodes/Node) *)

(** The identity of a node of class [A]. *)
Class HasId (A : Type) : Type := identity : A -> NodeId.

(** A node viewed as a child of category [A], when it is one. *)
Class Cast (Node A : Type) : Type := cast : Node -> option A.

Section ReplaceChild.

Context {Node A : Type}.
Context {nodeIdentity : HasId Node} {childIdentity : HasId A} {nodeCast : Cast Node A}.

(** Modelled from the spec: [Node.replaceChild] is declared in nodes/Node,
    which is not among the embedded files.  The spec's replacement contract
    is that the slot holding the target child receives the new child and
    every other slot keeps pointing at its original child.  Slots are typed:
    a replacement that is not of the slot's declared category is not
    substituted.  This is the contract at a single-node slot. *)
Definition replaceNode (child : A) (original replacement : Node) : A :=
  if Nat.eqb (identity child) (identity original)
  then match cast replacement with
       | Some r => r
       | None => child
       end
  else child.

(** Modelled from the spec: the same contract at a list slot; the element
    that is the target is substituted in place. *)
Definition replaceNodes (children : list A) (original replacement : Node) : list A :=
  map (fun child => replaceNode child original replacement) children.

(** Modelled from the spec: the same contract at an optional slot. *)
Definition replaceOptionalNode (child : option A) (original replacement : Node) : option A :=
  option_map (fun c => replaceNode c original replacement) child.

End ReplaceChild.

(** What the replacement contract asks of a child viewed as a node: the
    target gives way to the new child, any other node stays. *)
Definition substitute {Node : Type} {nodeIdentity : HasId Node} (original replacement n : Node)
    : Node :=
  if Nat.eqb (identity n) (identity original) then replacement else n.

(** The list [l] with position [i] holding [x] instead. *)
Fixpoint replaceAt {A : Type} (i : nat) (x : A) (l : list A) : list A :=
  match l, i with
  | [], _ => []
  | _ :: rest, 0 => x :: rest
  | y :: rest, S j => y :: replaceAt j x rest
  end.

(** * nodes/Select *)
Module Select.

Record Token := { token_id : NodeId; text : string }.

Record Unparsable := { unparsable_id : NodeId }.

Record Bind := { bind_id : NodeId; bind_names : list string }.

Record ColumnType := { column_id : NodeId; bind : Bind + Unparsable }.

Record ConflictContext := { program : NodeId }.

Variant ExceptionType : Type :=
| NOT_IMPLEMENTED
| OtherExceptionType (name : string).

(** Expressions.  [Select] is the class of this file, with its four
    fields; [Name] is the class the file tests cells against; [Foreign]
    stands for every other expression class.  [Methods] holds what
    [getType] and [compile] of a class outside this file answer. *)
Inductive Expression : Type :=
| SelectExpression (s : Select)
| Name (id : NodeId) (name : Token) (m : Methods)
| Foreign (id : NodeId) (m : Methods)
with Select : Type :=
| MkSelect (id : NodeId) (table : Expression) (select : Token) (row : Row)
           (query : Expression + Unparsable)
with Row : Type :=
| MkRow (id : NodeId) (cells : list Cell)
with Cell : Type :=
| MkCell (id : NodeId) (expression : Expression + Unparsable)
with Methods : Type :=
| MkMethods (getType_ : ConflictContext -> Type_) (compile_ : list Step)
with Step : Type :=
| Start (node : Expression)
| Finish (node : Expression)
| OtherStep (kind : string)
with Type_ : Type :=
| TableType (columns : list (option ColumnType))
| UnknownType (node : Expression)
| BooleanType
| ForeignType (name : string).

Definition table (this : Select) : Expression :=
  match this with MkSelect _ t _ _ _ => t end.

Definition row (this : Select) : Row :=
  match this with MkSelect _ _ _ r _ => r end.

Definition query (this : Select) : Expression + Unparsable :=
  match this with MkSelect _ _ _ _ q => q end.

Definition cells (r : Row) : list Cell :=
  match r with MkRow _ cs => cs end.

Definition expression (c : Cell) : Expression + Unparsable :=
  match c with MkCell _ e => e end.

Definition getType_ (m : Methods) : ConflictContext -> Type_ :=
  match m with MkMethods t _ => t end.

Definition compile_ (m : Methods) : list Step :=
  match m with MkMethods _ s => s end.

(** Runtime values, as far as this file builds them. *)
Inductive Value : Type :=
| Exception (node : Expression) (type : ExceptionType)
| Table (rows : list (list Value))
| OtherValue (kind : string).

Record Evaluator := { values : list Value }.

(** What a call does: return a value or throw. *)
Variant Completion (A : Type) : Type :=
| Returns (a : A)
| Throws (error : string).
Arguments Returns {A} a.
Arguments Throws {A} error.

(** [TableType.getColumnNamed] is declared in nodes/TableType; it is a
    parameter of [getType]. *)
Definition GetColumnNamed := list (option ColumnType) -> string -> option ColumnType.

(** The column a select cell names, [undefined] when the cell is not a
    [Name] or the table has no such column. *)
Definition cellColumn (getColumnNamed : GetColumnNamed)
    (columns : list (option ColumnType)) (cell : Cell) : option ColumnType :=
  match expression cell with
  | inl (Name _ name _) => getColumnNamed columns (text name)
  | _ => None
  end.

(** [Select.getType]; other classes answer through their [Methods]. *)
Fixpoint getType (getColumnNamed : GetColumnNamed) (e : Expression)
    (context : ConflictContext) {struct e} : Type_ :=
  match e with
  | SelectExpression (MkSelect _ table _ row _) =>
      let tableType := getType getColumnNamed table context in
      match tableType with
      | TableType columns =>
          let columnTypes := map (cellColumn getColumnNamed columns) (cells row) in
          if truthy (js_find isUndefined columnTypes)
          then UnknownType e
          else TableType columnTypes
      | _ => UnknownType e
      end
  | Name _ _ m => getType_ m context
  | Foreign _ m => getType_ m context
  end.

(** [Select.compile]; other classes answer through their [Methods]. *)
Fixpoint compile (e : Expression) : list Step :=
  match e with
  | SelectExpression (MkSelect _ table _ _ _) => [Start e] ++ compile table ++ [Finish e]
  | Name _ _ m => compile_ m
  | Foreign _ m => compile_ m
  end.

(** [Select.evaluate]. *)
Definition evaluate (this : Select) (evaluator : Evaluator) : Completion Value :=
  Returns (Exception (SelectExpression this) NOT_IMPLEMENTED).

(** A lookup by bind name, used as the concrete [getColumnNamed] in the
    examples: the first defined column whose bind carries the name. *)
Definition columnHasName (name : string) (c : option ColumnType) : bool :=
  match c with
  | Some {| bind := inl b |} => existsb (String.eqb name) (bind_names b)
  | _ => false
  end.

Definition columnNamed : GetColumnNamed :=
  fun columns name =>
    match List.find (columnHasName name) columns with
    | Some c => c
    | None => None
    end.

(** The conflicts [Select.getConflicts] builds. *)
Variant Conflict : Type :=
| NotATable (select : Select)
| ExpectedSelectName (cell : Cell)
| UnknownColumn (tableType : Type_) (cell : Cell)
| NonBooleanQuery (select : Select).

(** [cell.expression instanceof Name]. *)
Definition isName (e : Expression + Unparsable) : bool :=
  match e with
  | inl (Name _ _ _) => true
  | _ => false
  end.

(** [type instanceof BooleanType]. *)
Definition isBooleanType (t : Type_) : bool :=
  match t with
  | BooleanType => true
  | _ => false
  end.

(** [Select.getConflicts]. *)
Definition getConflicts (getColumnNamed : GetColumnNamed) (this : Select)
    (context : ConflictContext) : list Conflict :=
  let conflicts := [] in
  let tableType := getType getColumnNamed (table this) context in
  let conflicts :=
    match tableType with
    | TableType _ => conflicts
    | _ => conflicts ++ [NotATable this]
    end in
  let conflicts :=
    fold_left
      (fun conflicts cell =>
         if isName (expression cell) then conflicts
         else conflicts ++ [ExpectedSelectName cell])
      (cells (row this)) conflicts in
  let conflicts :=
    match tableType with
    | TableType columns =>
        fold_left
          (fun conflicts cell =>
             if truthy (cellColumn getColumnNamed columns cell) then conflicts
             else conflicts ++ [UnknownColumn tableType cell])
          (cells (row this)) conflicts
    | _ => conflicts
    end in
  match query this with
  | inl q =>
      if isBooleanType (getType getColumnNamed q context) then conflicts
      else conflicts ++ [NonBooleanQuery this]
  | inr _ => conflicts
  end.

Definition expressionId (e : Expression) : NodeId :=
  match e with
  | SelectExpression (MkSelect i _ _ _ _) => i
  | Name i _ _ => i
  | Foreign i _ => i
  end.

(** Following a plan with the nodes that are started and not yet finished,
    latest first: a Start opens its node, a Finish must close the node
    opened last.  [None] when a Finish does not. *)
Fixpoint run (plan : list Step) (opened : list NodeId) : option (list NodeId) :=
  match plan with
  | [] => Some opened
  | Start n :: rest => run rest (expressionId n :: opened)
  | Finish n :: rest =>
      match opened with
      | top :: below => if Nat.eqb top (expressionId n) then run rest below else None
      | [] => None
      end
  | OtherStep _ :: rest => run rest opened
  end.

(** A plan that finishes every node it starts, innermost first, and
    nothing else. *)
Definition wellBracketed (plan : list Step) : Prop :=
  forall opened, run plan opened = Some opened.

(** The plans that the classes outside this file answer, inside [e], are
    well bracketed. *)
Fixpoint foreignPlansWellBracketed (e : Expression) : Prop :=
  match e with
  | SelectExpression (MkSelect _ table _ _ _) => foreignPlansWellBracketed table
  | Name _ _ m => wellBracketed (compile_ m)
  | Foreign _ m => wellBracketed (compile_ m)
  end.

End Select.

(** * nodes/SetLiteral *)
Module SetLiteral.

Variant TokenType : Type :=
| SET_OPEN
| SET_CLOSE
| OtherTokenType (name : string).

Record Token := { token_id : NodeId; text : string; type : TokenType }.

Record Context := { project : list NodeId }.

(** Expressions.  [SetLiteral] is the class of this file, with its three
    fields; [Foreign] stands for every other expression class, with what
    its [compile] answers. *)
Inductive Expression : Type :=
| SetLiteralExpression (literal : SetLiteral)
| Foreign (id : NodeId) (m : Methods)
with SetLiteral : Type :=
| MkSetLiteral (id : NodeId) (open : Token) (values : list Expression) (close : option Token)
with Methods : Type :=
| MkMethods (compile_ : Context -> list Step)
with Step : Type :=
| Start (node : Expression)
| Finish (node : Expression)
| OtherStep (kind : string).

Definition id (this : SetLiteral) : NodeId :=
  match this with MkSetLiteral i _ _ _ => i end.

Definition open (this : SetLiteral) : Token :=
  match this with MkSetLiteral _ o _ _ => o end.

Definition values (this : SetLiteral) : list Expression :=
  match this with MkSetLiteral _ _ vs _ => vs end.

Definition close (this : SetLiteral) : option Token :=
  match this with MkSetLiteral _ _ _ c => c end.

Definition compile_ (m : Methods) : Context -> list Step :=
  match m with MkMethods c => c end.

Definition expressionId (e : Expression) : NodeId :=
  match e with
  | SetLiteralExpression literal => id literal
  | Foreign i _ => i
  end.

(** Any node this file handles. *)
Variant Node : Type :=
| TokenNode (t : Token)
| ExpressionNode (e : Expression).

Definition nodeId (n : Node) : NodeId :=
  match n with
  | TokenNode t => token_id t
  | ExpressionNode e => expressionId e
  end.

Definition asToken (n : Node) : option Token :=
  match n with
  | TokenNode t => Some t
  | ExpressionNode _ => None
  end.

Definition asExpression (n : Node) : option Expression :=
  match n with
  | ExpressionNode e => Some e
  | TokenNode _ => None
  end.

#[global] Instance Node_HasId : HasId Node := nodeId.
#[global] Instance Token_HasId : HasId Token := token_id.
#[global] Instance Expression_HasId : HasId Expression := expressionId.
#[global] Instance Token_Cast : Cast Node Token := asToken.
#[global] Instance Expression_Cast : Cast Node Expression := asExpression.

(** Both nodes are tokens, or both are expressions. *)
Definition sameCategory (a b : Node) : bool :=
  match a, b with
  | TokenNode _, TokenNode _ => true
  | ExpressionNode _, ExpressionNode _ => true
  | _, _ => false
  end.

Record Replacement := { original : Node; replacement : Node }.

(** Modelled from the spec: [this.replaceChild(field, child, replace)] of
    nodes/Node, at the three slot shapes of this class.  Without a
    replacement the child is kept. *)
Definition replaceChild (field : string) (child : Token) (replace : option Replacement) : Token :=
  match replace with
  | None => child
  | Some r => replaceNode child (original r) (replacement r)
  end.

Definition replaceChildren (field : string) (children : list Expression)
    (replace : option Replacement) : list Expression :=
  match replace with
  | None => children
  | Some r => replaceNodes children (original r) (replacement r)
  end.

Definition replaceOptionalChild (field : string) (child : option Token)
    (replace : option Replacement) : option Token :=
  match replace with
  | None => child
  | Some r => replaceOptionalNode child (original r) (replacement r)
  end.

(** [new SetLiteral(open, values, close)]. *)
Definition new_SetLiteral (open : Token) (values : list Expression) (close : option Token)
    : Alloc SetLiteral :=
  i <- fresh ;;
  ret (MkSetLiteral i open values close).

(** [SetLiteral.clone]. *)
Definition clone (this : SetLiteral) (replace : option Replacement) : Alloc SetLiteral :=
  new_SetLiteral
    (replaceChild "open" (open this) replace)
    (replaceChildren "values" (values this) replace)
    (replaceOptionalChild "close" (close this) replace).

(** The children of a set literal, in grammar order. *)
Definition children (this : SetLiteral) : list Node :=
  TokenNode (open this) :: map ExpressionNode (values this)
    ++ match close this with Some c => [TokenNode c] | None => [] end.

(** [SetLiteral.compile]; other classes answer through their [Methods].
    [reduce] with an initial value is a left fold. *)
Fixpoint compile (e : Expression) (context : Context) {struct e} : list Step :=
  match e with
  | SetLiteralExpression (MkSetLiteral _ _ values _) =>
      [Start e]
        ++ fold_left (fun steps item => steps ++ compile item context) values []
        ++ [Finish e]
  | Foreign _ m => compile_ m context
  end.

(** Runtime values, as far as this file builds them.  [SetValue] is
    [new Set(creator, values)] of runtime/Set. *)
Inductive Value : Type :=
| SetValue (creator : Expression) (values : list Value)
| ValueException (requestor : Expression)
| OtherValue (kind : string) (payload : nat).

(** The evaluator's value stack, top first. *)
Record Evaluator := { stack : list Value }.

(** Modelled from the spec: [Evaluator.popValue] is declared in
    runtime/Evaluator, which is not among the embedded files.  It removes
    and returns the value on top of the value stack; when a value is
    expected but absent it answers an exception value. *)
Definition popValue (requestor : Expression) (evaluator : Evaluator) : Value * Evaluator :=
  match stack evaluator with
  | v :: rest => (v, {| stack := rest |})
  | [] => (ValueException requestor, evaluator)
  end.

(** The loop of [evaluate]: [n] times, pop a value and put it at the front
    of [values]. *)
Fixpoint popValues (this : Expression) (n : nat) (evaluator : Evaluator)
    (values : list Value) : list Value * Evaluator :=
  match n with
  | 0 => (values, evaluator)
  | S k =>
      let (v, evaluator') := popValue this evaluator in
      popValues this k evaluator' (v :: values)
  end.

(** [SetLiteral.evaluate]. *)
Definition evaluate (this : SetLiteral) (evaluator : Evaluator) (prior : option Value)
    : Value * Evaluator :=
  match prior with
  | Some p => (p, evaluator)
  | None =>
      let (vs, evaluator') :=
        popValues (SetLiteralExpression this) (List.length (values this)) evaluator [] in
      (SetValue (SetLiteralExpression this) vs, evaluator')
  end.

(** [SetLiteral.getStart]. *)
Definition getStart (this : SetLiteral) : Token := open this.

(** [SetLiteral.getFinish]: [close ?? values[values.length - 1] ?? open];
    on an empty array the index is out of range and the element
    [undefined]. *)
Definition getFinish (this : SetLiteral) : Node :=
  match close this with
  | Some c => TokenNode c
  | None =>
      match nth_error (values this) (List.length (values this) - 1) with
      | Some v => ExpressionNode v
      | None => TokenNode (open this)
      end
  end.

(** [SetLiteral.getDependencies]. *)
Definition getDependencies (this : SetLiteral) : list Expression := values this.

(** Following a plan with the nodes that are started and not yet finished,
    latest first: a Start opens its node, a Finish must close the node
    opened last.  [None] when a Finish does not. *)
Fixpoint run (plan : list Step) (opened : list NodeId) : option (list NodeId) :=
  match plan with
  | [] => Some opened
  | Start n :: rest => run rest (expressionId n :: opened)
  | Finish n :: rest =>
      match opened with
      | top :: below => if Nat.eqb top (expressionId n) then run rest below else None
      | [] => None
      end
  | OtherStep _ :: rest => run rest opened
  end.

(** A plan that finishes every node it starts, innermost first, and
    nothing else. *)
Definition wellBracketed (plan : list Step) : Prop :=
  forall opened, run plan opened = Some opened.

(** The plans that the classes outside this file answer, inside [e], are
    well bracketed. *)
Fixpoint foreignPlansWellBracketed (context : Context) (e : Expression) : Prop :=
  match e with
  | SetLiteralExpression (MkSetLiteral _ _ values _) =>
      (fix all (items : list Expression) : Prop :=
         match items with
         | [] => True
         | item :: rest => foreignPlansWellBracketed context item /\ all rest
         end) values
  | Foreign _ m => wellBracketed (compile_ m context)
  end.

End SetLiteral.

(** * nodes/ConversionDefinition *)
Module ConversionDefinition.

Definition Translations := list (string * string).

Record Docs := { docs_id : NodeId; translations : Translations }.

Variant TokenType : Type :=
| CONVERT
| OtherTokenType (name : string).

Record Token := { token_id : NodeId; text : string; type : TokenType }.

Record Type_ := { type_id : NodeId; type_source : string }.

(** The expression classes this file tells apart. *)
Variant ExpressionClass : Type :=
| Block
| StructureDefinition
| FunctionDefinition
| OtherExpression (name : string).

Record Expression := { expression_id : NodeId; class : ExpressionClass }.

(** Any node this file handles. *)
Variant Node : Type :=
| DocsNode (d : Docs)
| TokenNode (t : Token)
| TypeNode (t : Type_)
| ExpressionNode (e : Expression)
| OtherNode (id : NodeId) (class_name : string).

Definition nodeId (n : Node) : NodeId :=
  match n with
  | DocsNode d => docs_id d
  | TokenNode t => token_id t
  | TypeNode t => type_id t
  | ExpressionNode e => expression_id e
  | OtherNode id _ => id
  end.

Definition asDocs (n : Node) : option Docs :=
  match n with DocsNode d => Some d | _ => None end.

Definition asToken (n : Node) : option Token :=
  match n with TokenNode t => Some t | _ => None end.

Definition asType (n : Node) : option Type_ :=
  match n with TypeNode t => Some t | _ => None end.

Definition asExpression (n : Node) : option Expression :=
  match n with ExpressionNode e => Some e | _ => None end.

#[global] Instance Node_HasId : HasId Node := nodeId.
#[global] Instance Docs_HasId : HasId Docs := docs_id.
#[global] Instance Token_HasId : HasId Token := token_id.
#[global] Instance Type_HasId : HasId Type_ := type_id.
#[global] Instance Expression_HasId : HasId Expression := expression_id.
#[global] Instance Docs_Cast : Cast Node Docs := asDocs.
#[global] Instance Token_Cast : Cast Node Token := asToken.
#[global] Instance Type_Cast : Cast Node Type_ := asType.
#[global] Instance Expression_Cast : Cast Node Expression := asExpression.

(** Both nodes belong to the same category of child. *)
Definition sameCategory (a b : Node) : bool :=
  match a, b with
  | DocsNode _, DocsNode _ => true
  | TokenNode _, TokenNode _ => true
  | TypeNode _, TypeNode _ => true
  | ExpressionNode _, ExpressionNode _ => true
  | _, _ => false
  end.

(** [enclosure instanceof Block]. *)
Definition isBlock (n : Node) : bool :=
  match n with
  | ExpressionNode {| class := Block |} => true
  | _ => false
  end.

Definition isStructureDefinition (n : Node) : bool :=
  match n with
  | ExpressionNode {| class := StructureDefinition |} => true
  | _ => false
  end.

Record ConversionDefinition := {
  id : NodeId;
  docs : Docs;
  arrow : Token;
  input : Type_;
  output : Type_;
  expression : Expression
}.

(** What [context.get(node)] answers: the node's place in the program.
    [getParents] lists the enclosing nodes, nearest first;
    [getBindingScope] is what the method of that name answers. *)
Record Tree := { getParents : list Node; getBindingScope : option Node }.

Record Context := { get : NodeId -> option Tree }.

Variant Conflict : Type :=
| MisplacedConversion (conversion : ConversionDefinition).

(** Modelled from the spec:
    [this.replaceChild(pretty, field, child, original, replacement)] of
    nodes/Node.  Without an original or without a replacement the child is
    kept. *)
Definition replaceChild {A : Type} {childIdentity : HasId A} {nodeCast : Cast Node A}
    (pretty : bool) (field : string) (child : A) (original replacement : option Node) : A :=
  match original, replacement with
  | Some o, Some r => replaceNode child o r
  | _, _ => child
  end.

Section Constructor.

(** [CONVERT_SYMBOL] of parser/Tokenizer and [parseType(tokens(text))] of
    parser/Parser are outside the embedded files. *)
Variable CONVERT_SYMBOL : string.
Variable parseType : string -> Alloc Type_.

(** [new ConversionDefinition(docs, input, output, expression, convert)]. *)
Definition new_ConversionDefinition (docs : Docs + Translations)
    (input : Type_ + string) (output : Type_ + string)
    (expression : Expression) (convert : option Token) : Alloc ConversionDefinition :=
  this <- fresh ;;
  docs' <- match docs with
           | inl d => ret d
           | inr t => i <- fresh ;; ret {| docs_id := i; translations := t |}
           end ;;
  arrow' <- match convert with
            | Some t => ret t
            | None => i <- fresh ;; ret {| token_id := i; text := CONVERT_SYMBOL; type := CONVERT |}
            end ;;
  input' <- match input with
            | inl t => ret t
            | inr s => parseType s
            end ;;
  output' <- match output with
             | inl t => ret t
             | inr s => parseType s
             end ;;
  ret {| id := this; docs := docs'; arrow := arrow'; input := input';
         output := output'; expression := expression |}.

(** [ConversionDefinition.replace]. *)
Definition replace (this : ConversionDefinition) (pretty : bool)
    (original replacement : option Node) : Alloc ConversionDefinition :=
  new_ConversionDefinition
    (inl (replaceChild pretty "docs" (docs this) original replacement))
    (inl (replaceChild pretty "input" (input this) original replacement))
    (inl (replaceChild pretty "output" (output this) original replacement))
    (replaceChild pretty "expression" (expression this) original replacement)
    (Some (replaceChild pretty "arrow" (arrow this) original replacement)).

End Constructor.

(** The children of a conversion definition, in grammar order. *)
Definition children (this : ConversionDefinition) : list Node :=
  [ DocsNode (docs this); TokenNode (arrow this); TypeNode (input this);
    TypeNode (output this); ExpressionNode (expression this) ].

(** [ConversionDefinition.computeConflicts]. *)
Definition computeConflicts (this : ConversionDefinition) (context : Context) : list Conflict :=
  let conflicts := [] in
  let enclosure :=
    match get context (id this) with
    | Some tree => getBindingScope tree
    | None => None
    end in
  match enclosure with
  | Some e => if negb (isBlock e) then conflicts ++ [MisplacedConversion this] else conflicts
  | None => conflicts
  end.

(** The definition lies inside a structure definition: one of the nodes
    enclosing it is a structure definition. *)
Definition inStructureDefinition (tree : Tree) : bool :=
  existsb isStructureDefinition (getParents tree).

(** [new TypePlaceholder()] and [new ExpressionPlaceholder()]. *)
Variant Placeholder : Type :=
| TypePlaceholder (id : NodeId)
| ExpressionPlaceholder (id : NodeId).

(** The edits offered on a child: [Replace] is built here, the others by
    transforms/getPossibleTypes and transforms/getPossibleExpressions. *)
Variant Transform : Type :=
| Replace (context : Context) (node : Node) (replacement : Placeholder)
| OtherTransform (name : string).

(** [child === node], for a child of this definition. *)
Definition isChild {A : Type} {childIdentity : HasId A} (child : Node) (node : A) : bool :=
  Nat.eqb (identity child) (identity node).

Section Edits.

(** [getPossibleTypeReplacements] and [getExpressionReplacements] are
    outside the embedded files. *)
Variable getPossibleTypeReplacements : Node -> Context -> list Transform.
Variable getExpressionReplacements :
  ConversionDefinition -> Expression -> Context -> list Transform.

(** [ConversionDefinition.getChildReplacement]. *)
Definition getChildReplacement (this : ConversionDefinition) (child : Node)
    (context : Context) : option (list Transform) :=
  if isChild child (input this) || isChild child (output this)
  then Some (getPossibleTypeReplacements child context)
  else if isChild child (expression this)
       then Some (getExpressionReplacements this (expression this) context)
       else None.

End Edits.

(** [ConversionDefinition.getChildRemoval]. *)
Definition getChildRemoval (this : ConversionDefinition) (child : Node)
    (context : Context) : Alloc (option Transform) :=
  if isChild child (input this) || isChild child (output this)
  then i <- fresh ;; ret (Some (Replace context child (TypePlaceholder i)))
  else if isChild child (expression this)
       then i <- fresh ;; ret (Some (Replace context child (ExpressionPlaceholder i)))
       else ret None.

(** [ConversionDefinition.isBlock]. *)
Definition isBlockChild (this : ConversionDefinition) (child : Node) : bool :=
  isChild child (expression this).

End ConversionDefinition.

(** * conflicts/MissingInput *)
Module MissingInput.

Definition Locale := string.

Record Token := { token_id : NodeId; text : string }.

Record Expression := { expression_id : NodeId }.

(** The names of a definition, by what the two methods called here answer. *)
Record Names := {
  getPreferredNameString : list Locale -> option string;
  getFirst : string
}.

Variant DefinitionClass : Type :=
| FunctionDefinition
| StructureDefinition
| StreamDefinition.

Record Definition_ := {
  definition_id : NodeId;
  definition_class : DefinitionClass;
  names : Names;
  definition_getPreferredName : list Locale -> string
}.

Record Bind := {
  bind_id : NodeId;
  bind_getPreferredName : list Locale -> string
}.

Variant EvaluateClass : Type :=
| Evaluate
| BinaryEvaluate
| UnaryEvaluate.

(** A call: [fun_] is its [fun] field, the expression naming the function. *)
Record Evaluation := {
  evaluate_id : NodeId;
  evaluate_class : EvaluateClass;
  fun_ : Expression
}.

Record Project := { contains : NodeId -> bool }.

Record Context := { project : Project }.

Record Locales := { getLocales : list Locale }.

(** What a template is filled with. *)
Variant TemplateInput : Type :=
| TextInput (s : string)
| NodeRef (node : NodeId)
| ConceptRef (concept : string).

(** [locales.concretize(l => l.<path>, inputs...)]: the key of the template
    in the locale catalog and its inputs. *)
Record Concretized := { template : list string; inputs : list TemplateInput }.

Record ConflictingNode (A : Type) := {
  node : A;
  explanation : Locales -> Context -> Concretized
}.
Arguments node {A} c.
Arguments explanation {A} c.

Record ConflictingNodes := {
  primary : ConflictingNode Expression;
  secondary : ConflictingNode Bind
}.

Record MissingInput := {
  minor : bool;
  func : Definition_;
  evaluate : Evaluation;
  last : Token + Expression;
  input : Bind
}.

(** [new MissingInput(func, evaluate, last, expected)]. *)
Definition new_MissingInput (func : Definition_) (evaluate : Evaluation)
    (last : Token + Expression) (expected : Bind) : MissingInput :=
  {| minor := false; func := func; evaluate := evaluate; last := last; input := expected |}.

(** [a ?? b]. *)
Definition orElse {A : Type} (a : option A) (b : A) : A :=
  match a with
  | Some x => x
  | None => b
  end.

(** [MissingInput.getConflictingNodes]. *)
Definition getConflictingNodes (this : MissingInput) : ConflictingNodes :=
  {| primary :=
       {| node := fun_ (evaluate this);
          explanation := fun locales context =>
            {| template := ["node"; "Evaluate"; "conflict"; "MissingInput"; "primary"];
               inputs :=
                 [ TextInput
                     (orElse (getPreferredNameString (names (func this)) (getLocales locales))
                             (getFirst (names (func this))));
                   if contains (project context) (bind_id (input this))
                   then NodeRef (bind_id (input this))
                   else ConceptRef
                          (definition_getPreferredName (func this) (getLocales locales)
                             ++ "/"
                             ++ bind_getPreferredName (input this) (getLocales locales)) ] |} |};
     secondary :=
       {| node := input this;
          explanation := fun locales context =>
            {| template := ["node"; "Evaluate"; "conflict"; "MissingInput"; "secondary"];
               inputs := [ NodeRef (expression_id (fun_ (evaluate this))) ] |} |} |}.

End MissingInput.

(** * nodes/util *)
Module NodeUtil.

Record Expression := { expression_id : NodeId }.

Record Unparsable := { unparsable_id : NodeId }.

(** [getName()] and [getLanguage()] of an alias may be [undefined]. *)
Record Alias := { alias_id : NodeId; getName : option string; getLanguage : option string }.

(** [value] is the default value of the bind, when it has one. *)
Record Bind := {
  bind_id : NodeId;
  aliases : list Alias;
  value : option Expression;
  isVariableLength : bool
}.

Record Name := { name_id : NodeId; name_text : string }.

Variant NameOrAlias : Type :=
| NameNode (n : Name)
| AliasNode (a : Alias).

Record Context := { program : NodeId }.

(** What a name resolves to. *)
Variant Definition_ : Type :=
| BindDefinition (b : Bind)
| OtherDefinition (id : NodeId) (class_name : string).

(** A node that can enclose names, by what [getDefinitionOfName] answers. *)
Record Node := {
  node_id : NodeId;
  getDefinitionOfName : string -> Context -> NameOrAlias -> option Definition_
}.

Record Type_ := { type_id : NodeId; type_text : string }.

Record ColumnType := { column_id : NodeId; column_bind : Bind + Unparsable }.

Record TableType := { table_id : NodeId; columns : list ColumnType }.

(** A cell holds a bind (a named value) or a plain expression. *)
Record Cell := { cell_id : NodeId; cell_value : Bind + Expression }.

Record Row := { row_id : NodeId; cells : list Cell }.

(** A JavaScript [Map] from strings, in insertion order. *)
Definition StringMap (V : Type) : Type := list (string * V).

Variant Conflict : Type :=
| DuplicateAliases (duplicates : StringMap (list Alias))
| RequiredAfterOptional (bind : Bind)
| VariableLengthArgumentMustBeLast (rest : Bind)
| CaseSensitive (node : NameOrAlias) (alias : Alias)
| UnknownColumn (tableType : TableType) (cell : Cell)
| IncompatibleCellType (tableType : TableType) (cell : Cell) (expected given : Type_)
| MissingCell (row : Row) (tableType : TableType) (column : ColumnType)
| InvalidRow (row : Row).

(** [i instanceof Bind]. *)
Definition isBind {B : Type} (i : Bind + B) : bool :=
  match i with
  | inl _ => true
  | inr _ => false
  end.

(** [inputs.filter(i => i instanceof Bind) as Bind[]]. *)
Fixpoint bindsOf {B : Type} (inputs : list (Bind + B)) : list Bind :=
  match inputs with
  | [] => []
  | inl b :: rest => b :: bindsOf rest
  | inr _ :: rest => bindsOf rest
  end.

(** [duplicates.push(alias)] on the entry of [name], created when absent. *)
Fixpoint pushAlias (m : StringMap (list Alias)) (name : string) (alias : Alias)
    : StringMap (list Alias) :=
  match m with
  | [] => [(name, [alias])]
  | (k, v) :: rest =>
      if String.eqb k name then (k, v ++ [alias]) :: rest
      else (k, v) :: pushAlias rest name alias
  end.

(** [getDuplicateAliases]. *)
Definition getDuplicateAliases (aliases : list Alias) : option Conflict :=
  let duplicatesByName :=
    fold_left
      (fun m alias =>
         match getName alias with
         | Some name => pushAlias m name alias
         | None => m
         end)
      aliases [] in
  let duplicatesByName :=
    filter (fun entry => negb (Nat.eqb (List.length (snd entry)) 1)) duplicatesByName in
  if Nat.ltb 0 (List.length duplicatesByName)
  then Some (DuplicateAliases duplicatesByName)
  else None.

(** One turn of the [forEach] of [requiredBindAfterOptional], on the pair
    ([foundOptional], [requiredAfterOptional]). *)
Definition scanBind (state : bool * option Bind) (bind : Bind) : bool * option Bind :=
  let (foundOptional, requiredAfterOptional) := state in
  match value bind with
  | Some _ => (true, requiredAfterOptional)
  | None =>
      if foundOptional && isUndefined requiredAfterOptional
      then (foundOptional, Some bind)
      else (foundOptional, requiredAfterOptional)
  end.

(** [requiredBindAfterOptional]. *)
Definition requiredBindAfterOptional (inputs : list (Bind + Unparsable)) : option Conflict :=
  let binds := bindsOf inputs in
  let (foundOptional, requiredAfterOptional) := fold_left scanBind binds (false, None) in
  if Nat.eqb (List.length inputs) (List.length binds)
     && negb (isUndefined requiredAfterOptional)
  then option_map RequiredAfterOptional requiredAfterOptional
  else None.

(** [inputs.indexOf(rest)]: the first position holding the object [rest]. *)
Fixpoint indexOf (inputs : list (Bind + Unparsable)) (rest : Bind) : option nat :=
  match inputs with
  | [] => None
  | inl b :: more =>
      if Nat.eqb (bind_id b) (bind_id rest) then Some 0
      else option_map S (indexOf more rest)
  | inr _ :: more => option_map S (indexOf more rest)
  end.

(** [restIsNotLast]. *)
Definition restIsNotLast (inputs : list (Bind + Unparsable)) : option Conflict :=
  let rest :=
    List.find (fun i => match i with inl b => isVariableLength b | inr _ => false end) inputs in
  match rest with
  | Some (inl rest) =>
      match indexOf inputs rest with
      | Some index =>
          if Nat.eqb (S index) (List.length inputs) then None
          else Some (VariableLengthArgumentMustBeLast rest)
      | None => Some (VariableLengthArgumentMustBeLast rest)
      end
  | _ => None
  end.

(** [conflicts.push(c)] when [c] is defined. *)
Definition pushIf (conflicts : list Conflict) (c : option Conflict) : list Conflict :=
  match c with
  | Some x => conflicts ++ [x]
  | None => conflicts
  end.

(** [getEvaluationInputConflicts]. *)
Definition getEvaluationInputConflicts (inputs : list (Bind + Unparsable)) : list Conflict :=
  let conflicts := [] in
  let duplicateInputs :=
    getDuplicateAliases
      (flat_map (fun i => match i with inl b => aliases b | inr _ => [] end) inputs) in
  let conflicts := pushIf conflicts duplicateInputs in
  let requiredAfterOptional := requiredBindAfterOptional inputs in
  let conflicts := pushIf conflicts requiredAfterOptional in
  let restIsntLast := restIsNotLast inputs in
  let conflicts := pushIf conflicts restIsntLast in
  conflicts.

(** [n.getName() === otherCase]. *)
Definition aliasIsNamed (otherCase : string) (n : Alias) : bool :=
  match getName n with
  | Some s => String.eqb s otherCase
  | None => false
  end.

Section CaseCollision.

(** [String.prototype.toLocaleUpperCase] and [toLocaleLowerCase] are built
    into the language: they map every cased letter of Unicode, after the
    locale of the host.  What is proved of the functions that call them
    holds whatever the two mappings are. *)
Variable toLocaleUpperCase : string -> string.
Variable toLocaleLowerCase : string -> string.

(** The other-case form [getCaseCollision] looks up: none when the two case
    forms of the name are the same; the lower-case form of a name that is
    its own upper-case form; the upper-case form of any other name. *)
Definition otherCase (name : string) : option string :=
  let upper := toLocaleUpperCase name in
  let lower := toLocaleLowerCase name in
  if String.eqb upper lower then None
  else if String.eqb name upper then Some lower
  else Some upper.

(** [getCaseCollision]. *)
Definition getCaseCollision (name : string) (enclosure : option Node) (context : Context)
    (node : NameOrAlias) : option Conflict :=
  match enclosure with
  | None => None
  | Some enclosure =>
      match otherCase name with
      | None => None
      | Some otherCase =>
          match getDefinitionOfName enclosure otherCase context node with
          | Some (BindDefinition otherBind) =>
              match List.find (aliasIsNamed otherCase) (aliases otherBind) with
              | Some alias => Some (CaseSensitive node alias)
              | None => None
              end
          | _ => None
          end
      end
  end.

(** Two names differ only by letter case. *)
Definition differsOnlyByCase (a b : string) : bool :=
  negb (String.eqb a b) && String.eqb (toLocaleLowerCase a) (toLocaleLowerCase b).

End CaseCollision.

(** Modelled from the spec: [Row.allBinds] and [Row.allExpressions] are
    declared in nodes/Row, which is not among the embedded files.  A well
    shaped row is either all named (every cell holds a bind) or all unnamed
    (no cell holds a bind); any other row mixes the two. *)
Definition allBinds (row : Row) : bool :=
  forallb (fun cell => isBind (cell_value cell)) (cells row).

Definition allExpressions (row : Row) : bool :=
  forallb (fun cell => negb (isBind (cell_value cell))) (cells row).

(** The methods [analyzeRow] calls on classes declared outside the embedded
    files: [TableType.getColumnNamed], [Bind.getNames],
    [ColumnType.getValueType], [ColumnType.hasDefault], [Cell.getType] and
    [Type.accepts]. *)
Record Methods := {
  getColumnNamed : TableType -> option string -> option ColumnType;
  getNames : Bind -> list string;
  getValueType : ColumnType -> Context -> Type_;
  hasDefault : ColumnType -> bool;
  getType : Cell -> Context -> Type_;
  accepts : Type_ -> Type_ -> Context -> bool
}.

(** [matchedColumns.includes(column)]: the array holds that very object. *)
Definition includes (matchedColumns : list ColumnType) (column : ColumnType) : bool :=
  existsb (fun c => Nat.eqb (column_id c) (column_id column)) matchedColumns.

Section AnalyzeRow.

Variable M : Methods.
Variable tableType : TableType.
Variable row : Row.
Variable context : Context.

(** The type check shared by both shapes of row. *)
Definition checkCellType (conflicts : list Conflict) (column : ColumnType) (cell : Cell)
    : list Conflict :=
  let expected := getValueType M column context in
  let given := getType M cell context in
  if negb (accepts M expected given context)
  then conflicts ++ [IncompatibleCellType tableType cell expected given]
  else conflicts.

(** One turn of the loop over the cells of an all-named row, on the pair
    ([conflicts], [matchedColumns]). *)
Definition checkBindCell (state : list Conflict * list ColumnType) (cell : Cell)
    : list Conflict * list ColumnType :=
  let (conflicts, matchedColumns) := state in
  match cell_value cell with
  | inl b =>
      match getColumnNamed M tableType (hd_error (getNames M b)) with
      | None => (conflicts ++ [UnknownColumn tableType cell], matchedColumns)
      | Some column => (checkCellType conflicts column cell, matchedColumns ++ [column])
      end
  | inr _ => state
  end.

(** One turn of the loop over the columns of an all-named row. *)
Definition checkSpecified (matchedColumns : list ColumnType) (conflicts : list Conflict)
    (column : ColumnType) : list Conflict :=
  if negb (includes matchedColumns column) && negb (hasDefault M column)
  then conflicts ++ [MissingCell row tableType column]
  else conflicts.

(** The loop over the columns of an all-unnamed row; [cells] is the copy of
    the row's cells that [shift] consumes from the front. *)
Fixpoint checkPositional (columns : list ColumnType) (cells : list Cell)
    (conflicts : list Conflict) : list Conflict :=
  match columns with
  | [] => conflicts
  | column :: columns' =>
      match cells with
      | [] => checkPositional columns' [] (conflicts ++ [MissingCell row tableType column])
      | cell :: cells' => checkPositional columns' cells' (checkCellType conflicts column cell)
      end
  end.

(** [analyzeRow]. *)
Definition analyzeRow : list Conflict :=
  let conflicts := [] in
  if allBinds row then
    let (conflicts, matchedColumns) := fold_left checkBindCell (cells row) (conflicts, []) in
    fold_left (checkSpecified matchedColumns) (columns tableType) conflicts
  else if allExpressions row then
    checkPositional (columns tableType) (cells row) conflicts
  else
    conflicts ++ [InvalidRow row].

End AnalyzeRow.

(** A column receives a value from the row: a named cell resolves to it in
    an all-named row; a cell stands at its position in an all-unnamed row. *)
Definition namedBy (M : Methods) (tableType : TableType) (column : ColumnType) (cell : Cell)
    : bool :=
  match cell_value cell with
  | inl b =>
      match getColumnNamed M tableType (hd_error (getNames M b)) with
      | Some c => Nat.eqb (column_id c) (column_id column)
      | None => false
      end
  | inr _ => false
  end.

Definition receivesValue (M : Methods) (tableType : TableType) (row : Row)
    (index : nat) (column : ColumnType) : bool :=
  if allBinds row then existsb (namedBy M tableType column) (cells row)
  else Nat.ltb index (List.length (cells row)).

(** The column a provided cell is a value for: the column its bind names
    in an all-named row; the column at its position in an all-unnamed row. *)
Definition columnOfCell (M : Methods) (tableType : TableType) (row : Row)
    (index : nat) (cell : Cell) : option ColumnType :=
  if allBinds row then
    match cell_value cell with
    | inl b => getColumnNamed M tableType (hd_error (getNames M b))
    | inr _ => None
    end
  else nth_error (columns tableType) index.

(** The row mixes named cells and unnamed expression cells. *)
Definition mixed (row : Row) : bool :=
  negb (allBinds row) && negb (allExpressions row).

(** Modelled from the spec: [Node.getDefinitionOfName] is declared in
    nodes/Node, which is not among the embedded files.  Name resolution is
    case-sensitive: a scope holding the binds [binds] resolves a name to the
    first bind that has an alias of exactly that name. *)
Definition bindIsNamed (name : string) (b : Bind) : bool :=
  existsb (aliasIsNamed name) (aliases b).

Definition scopeOf (id : NodeId) (binds : list Bind) : Node :=
  {| node_id := id;
     getDefinitionOfName := fun name _ _ =>
       option_map BindDefinition (List.find (bindIsNamed name) binds) |}.

(** [duplicates.push(v)] on the entry of [key] of a map of arrays, the
    entry being created when absent. *)
Fixpoint pushTo {V : Type} (m : StringMap (list V)) (key : string) (v : V)
    : StringMap (list V) :=
  match m with
  | [] => [(key, [v])]
  | (k, vs) :: rest =>
      if String.eqb k key then (k, vs ++ [v]) :: rest
      else (k, vs) :: pushTo rest key v
  end.

(** The [forEach] that deletes every entry holding exactly one element. *)
Definition keepDuplicates {V : Type} (m : StringMap (list V)) : StringMap (list V) :=
  filter (fun entry => negb (Nat.eqb (List.length (snd entry)) 1)) m.

Record Language := { language_id : NodeId; language_text : string }.

(** A documentation: [getLanguage()] is the text of its language tag and
    [lang] the tag node; either may be [undefined]. *)
Record Documentation := {
  documentation_id : NodeId;
  doc_getLanguage : option string;
  lang : option Language
}.

Record DuplicateLanguages := {
  duplicate_docs : list Documentation;
  duplicate_languages : StringMap (list Language)
}.

(** [getDuplicateDocs]. *)
Definition getDuplicateDocs (docs : list Documentation) : option DuplicateLanguages :=
  let duplicatesByLanguage :=
    fold_left
      (fun m doc =>
         match doc_getLanguage doc, lang doc with
         | Some language, Some l => pushTo m language l
         | _, _ => m
         end)
      docs [] in
  let duplicatesByLanguage := keepDuplicates duplicatesByLanguage in
  if Nat.ltb 0 (List.length duplicatesByLanguage)
  then Some {| duplicate_docs := docs; duplicate_languages := duplicatesByLanguage |}
  else None.





(** What a call does: return a value, or throw the [TypeError] of reading
    a property of [undefined]. *)
Variant Outcome (A : Type) : Type :=
| Returned (a : A)
| TypeError.
Arguments Returned {A} a.
Arguments TypeError {A}.

(** A plain JavaScript object with string values, by the properties that
    are its own; it is read through [ownProperty] only.  [setOwn] creates
    the own property [key] or updates it. *)
Fixpoint setOwn (object : StringMap string) (key v : string) : StringMap string :=
  match object with
  | [] => [(key, v)]
  | (k, w) :: rest =>
      if String.eqb k key then (k, v) :: rest
      else (k, w) :: setOwn rest key v
  end.

(** [object[key] = v], for a string [v].  The key [__proto__] is not a
    property of the object but the accessor it inherits from
    [Object.prototype], whose setter ignores a value that is not an object:
    that assignment stores nothing.  Any other key becomes or stays an own
    property. *)
Definition setKey (object : StringMap string) (key v : string) : StringMap string :=
  if String.eqb key "__proto__" then object else setOwn object key v.

(** The own property [key] of the object, [undefined] when it has none. *)
Fixpoint ownProperty (object : StringMap string) (key : string) : option string :=
  match object with
  | [] => None
  | (k, w) :: rest => if String.eqb k key then Some w else ownProperty rest key
  end.

(** [aliases.find(a => a.getLanguage() === undefined)?.getName()
     ?? aliases[0].getName() ?? fallback]. *)
Definition defaultTranslation (aliases : list Alias) (fallback : string) : Outcome string :=
  let untagged :=
    match List.find (fun a => isUndefined (getLanguage a)) aliases with
    | Some a => getName a
    | None => None
    end in
  match untagged with
  | Some name => Returned name
  | None =>
      match aliases with
      | first :: _ =>
          Returned (match getName first with Some name => name | None => fallback end)
      | [] => TypeError
      end
  end.

(** One turn of the loop of [aliasesToTranslations]. *)
Definition overrideTranslation (translations : StringMap string) (alias : Alias)
    : StringMap string :=
  match getLanguage alias, getName alias with
  | Some l, Some name => setKey translations l name
  | _, _ => translations
  end.

(** [aliasesToTranslations]; [ANONYMOUS_SYMBOL] is a constant of
    parser/Tokenizer. *)
Definition aliasesToTranslations (ANONYMOUS_SYMBOL : string) (aliases : list Alias)
    : Outcome (StringMap string) :=
  match defaultTranslation aliases "anonymous" with
  | TypeError => TypeError
  | Returned eng =>
      match defaultTranslation aliases ANONYMOUS_SYMBOL with
      | TypeError => TypeError
      | Returned emoji =>
          let translations := [("eng", eng); ("😀", emoji)] in
          Returned (fold_left overrideTranslation aliases translations)
      end
  end.

(** The keys under which a grouping loop files its items, in order. *)
Definition keysOf {A : Type} (key : A -> option string) (items : list A) : list string :=
  flat_map (fun x => match key x with Some k => [k] | None => [] end) items.

(** The items that a grouping loop files under [k]. *)
Definition filedUnder {A : Type} (key : A -> option string) (k : string) (items : list A)
    : list A :=
  filter (fun x => match key x with Some k' => String.eqb k' k | None => false end) items.

(** The array a map of arrays holds for [k], empty when it has no entry. *)
Definition entriesOf {V : Type} (k : string) (m : StringMap (list V)) : list V :=
  match List.find (fun entry => String.eqb (fst entry) k) m with
  | Some entry => snd entry
  | None => []
  end.

(** The name of the last alias, among those that have a name, tagged with
    the language [l]. *)
Fixpoint lastTagged (l : string) (aliases : list Alias) : option string :=
  match aliases with
  | [] => None
  | alias :: rest =>
      match lastTagged l rest with
      | Some name => Some name
      | None =>
          match getLanguage alias, getName alias with
          | Some l', Some name => if String.eqb l' l then Some name else None
          | _, _ => None
          end
      end
  end.

(** The language under which [getDuplicateDocs] files a documentation: the
    text of its language tag, when it has both the text and the tag node. *)
Definition filedLanguage (doc : Documentation) : option string :=
  match doc_getLanguage doc, lang doc with
  | Some language, Some _ => Some language
  | _, _ => None
  end.

(** An input that is not a variable-length bind. *)
Definition fixedLength (i : Bind + Unparsable) : Prop :=
  match i with
  | inl b => isVariableLength b = false
  | inr _ => True
  end.

(** What a call returned, [None] when it threw. *)
Definition returned {A : Type} (o : Outcome A) : option A :=
  match o with
  | Returned a => Some a
  | TypeError => None
  end.

End NodeUtil.

(** * Example programs *)

Module SelectExamples.
Import Select.

Definition context0 : ConflictContext := {| program := 0 |}.

(** A table with the single column [a]. *)
Definition columnA : ColumnType :=
  {| column_id := 10; bind := inl {| bind_id := 11; bind_names := ["a"] |} |}.

Definition tableOfA : Expression :=
  Foreign 1 (MkMethods (fun _ => TableType [Some columnA]) [OtherStep "table"]).

Definition nameMethods : Methods :=
  MkMethods (fun _ => ForeignType "name") [OtherStep "name"].

Definition cellNamed (id : NodeId) (column : string) : Cell :=
  MkCell id (inl (Name (S id) {| token_id := S (S id); text := column |} nameMethods)).

Definition selectToken : Token := {| token_id := 2; text := "select" |}.

Definition noQuery : Expression + Unparsable := inr {| unparsable_id := 3 |}.

(** [table select a]: the cell names a column of the table. *)
Definition selectA : Select :=
  MkSelect 4 tableOfA selectToken (MkRow 5 [cellNamed 6 "a"]) noQuery.

(** [table select b]: the table has no column [b]. *)
Definition selectB : Select :=
  MkSelect 4 tableOfA selectToken (MkRow 5 [cellNamed 6 "b"]) noQuery.

(** [(table select a) select a]: a select over a select. *)
Definition selectTwice : Select :=
  MkSelect 20 (SelectExpression selectA) selectToken (MkRow 21 [cellNamed 22 "a"]) noQuery.

End SelectExamples.

Module NodeUtilExamples.
Import NodeUtil.

Definition context0 : Context := {| program := 0 |}.

Definition aliasOf (id : NodeId) (name : string) : Alias :=
  {| alias_id := id; getName := Some name; getLanguage := None |}.

(** A bind named [name], with a default value when [default] is set. *)
Definition bindOf (id : NodeId) (name : string) (default : bool) : Bind :=
  {| bind_id := id;
     aliases := [aliasOf (S id) name];
     value := if default then Some {| expression_id := S (S id) |} else None;
     isVariableLength := false |}.

Definition requiredA : Bind := bindOf 10 "a" false.
Definition optionalB : Bind := bindOf 20 "b" true.
Definition requiredC : Bind := bindOf 30 "c" false.
Definition requiredD : Bind := bindOf 40 "d" false.

(** Inputs [a  b: 1  c  d]: [c] is the first required input after an
    optional one. *)
Definition inputsABCD : list (Bind + Unparsable) :=
  map inl [requiredA; optionalB; requiredC; requiredD].

(** Inputs [a  b: 1]: no required input follows the optional one. *)
Definition inputsAB : list (Bind + Unparsable) :=
  map inl [requiredA; optionalB].

(** The first inputs with an unparsable one between them. *)
Definition unparsable0 : Unparsable := {| unparsable_id := 50 |}.

Definition inputsWithUnparsable : list (Bind + Unparsable) :=
  [inl requiredA; inl optionalB; inr unparsable0; inl requiredC].

(** What [toLocaleUpperCase] and [toLocaleLowerCase] answer on the names
    of the examples, which are written in the letters a to z and A to Z
    only: those letters change case. *)
Definition upperLetter (c : ascii) : ascii :=
  let n := nat_of_ascii c in
  if Nat.leb 97 n && Nat.leb n 122 then ascii_of_nat (n - 32) else c.

Definition lowerLetter (c : ascii) : ascii :=
  let n := nat_of_ascii c in
  if Nat.leb 65 n && Nat.leb n 90 then ascii_of_nat (n + 32) else c.

Fixpoint upperLetters (s : string) : string :=
  match s with
  | EmptyString => EmptyString
  | String c rest => String (upperLetter c) (upperLetters rest)
  end.

Fixpoint lowerLetters (s : string) : string :=
  match s with
  | EmptyString => EmptyString
  | String c rest => String (lowerLetter c) (lowerLetters rest)
  end.

(** Scopes binding [FOO] and [Ab]. *)
Definition bindFOO : Bind := bindOf 60 "FOO" false.
Definition bindAb : Bind := bindOf 70 "Ab" false.
Definition scopeFOO : Node := scopeOf 80 [bindFOO].
Definition scopeAb : Node := scopeOf 81 [bindAb].

Definition nameNode (id : NodeId) (name : string) : NameOrAlias :=
  NameNode {| name_id := id; name_text := name |}.

Definition numberType : Type_ := {| type_id := 1; type_text := "#" |}.
Definition textType : Type_ := {| type_id := 2; type_text := "text" |}.

Definition columnIsNamed (name : string) (c : ColumnType) : bool :=
  match column_bind c with
  | inl b => bindIsNamed name b
  | inr _ => false
  end.

(** Methods for the table examples: columns are looked up by the names
    of their binds, every column holds numbers, a column has a default when
    its bind has a value, cells numbered below 100 are numbers and the
    others are texts, and a type accepts the types of the same text. *)
Definition methods0 : Methods :=
  {| getColumnNamed := fun tableType name =>
       match name with
       | Some n => List.find (columnIsNamed n) (columns tableType)
       | None => None
       end;
     getNames := fun b =>
       flat_map (fun a => match getName a with Some n => [n] | None => [] end) (aliases b);
     getValueType := fun _ _ => numberType;
     hasDefault := fun c =>
       match column_bind c with
       | inl b => truthy (value b)
       | inr _ => false
       end;
     getType := fun cell _ => if Nat.ltb (cell_id cell) 100 then numberType else textType;
     accepts := fun expected given _ => String.eqb (type_text expected) (type_text given) |}.

(** A table with the columns [a], [b] and [c], none with a default. *)
Definition columnA : ColumnType := {| column_id := 110; column_bind := inl (bindOf 111 "a" false) |}.
Definition columnB : ColumnType := {| column_id := 120; column_bind := inl (bindOf 121 "b" false) |}.
Definition columnC : ColumnType := {| column_id := 130; column_bind := inl (bindOf 131 "c" false) |}.

Definition tableABC : TableType := {| table_id := 100; columns := [columnA; columnB; columnC] |}.

(** Cells: [a: 1] (a number), [b: 'x'] (a text), and the plain number [2]. *)
Definition cellA : Cell := {| cell_id := 1; cell_value := inl (bindOf 210 "a" true) |}.
Definition cellBText : Cell := {| cell_id := 200; cell_value := inl (bindOf 220 "b" true) |}.
Definition cellAText : Cell := {| cell_id := 201; cell_value := inl (bindOf 230 "a" true) |}.
Definition cellPlain : Cell := {| cell_id := 2; cell_value := inr {| expression_id := 240 |} |}.
Definition cellPlainText : Cell := {| cell_id := 202; cell_value := inr {| expression_id := 250 |} |}.

(** The all-named row [a: 1  b: 'x']. *)
Definition namedRow : Row := {| row_id := 300; cells := [cellA; cellBText] |}.

(** The all-unnamed row [2  'y']. *)
Definition plainRow : Row := {| row_id := 301; cells := [cellPlain; cellPlainText] |}.

(** The mixed row [a: 'x'  2]. *)
Definition mixedRow : Row := {| row_id := 302; cells := [cellAText; cellPlain] |}.

(** Aliases [x], [y] and a second [x]. *)
Definition aliasX1 : Alias := aliasOf 401 "x".
Definition aliasY : Alias := aliasOf 402 "y".
Definition aliasX2 : Alias := aliasOf 403 "x".

(** A variable-length bind [rest] and the inputs [a  rest  b: 1]. *)
Definition restBind : Bind :=
  {| bind_id := 410; aliases := [aliasOf 411 "rest"]; value := None;
     isVariableLength := true |}.

Definition inputsRestInside : list (Bind + Unparsable) :=
  [inl requiredA; inl restBind; inl optionalB].

(** The aliases [hi/eng  hola/spa  bonjour/fra  ola/spa]: two are tagged
    with the same language. *)
Definition taggedAlias (id : NodeId) (name l : string) : Alias :=
  {| alias_id := id; getName := Some name; getLanguage := Some l |}.

Definition greetings : list Alias :=
  [ taggedAlias 421 "hi" "eng"; taggedAlias 422 "hola" "spa";
    taggedAlias 423 "bonjour" "fra"; taggedAlias 424 "ola" "spa" ].

(** The aliases [x/spa  y]: the first one is tagged, the second is not. *)
Definition taggedThenPlain : list Alias := [ taggedAlias 431 "x" "spa"; aliasOf 432 "y" ].

(** The all-named row [c: 3  a: 1  b: 2] and the all-unnamed rows [1 2 3]
    and [1 2 3 'z'], all of numbers but the last cell of the last row. *)
Definition cellB : Cell := {| cell_id := 3; cell_value := inl (bindOf 260 "b" true) |}.
Definition cellC : Cell := {| cell_id := 4; cell_value := inl (bindOf 270 "c" true) |}.
Definition cellPlain2 : Cell := {| cell_id := 5; cell_value := inr {| expression_id := 280 |} |}.
Definition cellPlain3 : Cell := {| cell_id := 6; cell_value := inr {| expression_id := 290 |} |}.

Definition namedRowCAB : Row := {| row_id := 303; cells := [cellC; cellA; cellB] |}.
Definition plainRow3 : Row := {| row_id := 304; cells := [cellPlain; cellPlain2; cellPlain3] |}.
Definition plainRow4 : Row :=
  {| row_id := 305; cells := [cellPlain; cellPlain2; cellPlain3; cellPlainText] |}.

End NodeUtilExamples.

Module SetLiteralExamples.
Import SetLiteral.

Definition context0 : Context := {| project := [] |}.

Definition openToken : Token := {| token_id := 1; text := "{"; type := SET_OPEN |}.
Definition closeToken : Token := {| token_id := 2; text := "}"; type := SET_CLOSE |}.

(** A literal of another class whose plan is the single step [kind]. *)
Definition literal (id : NodeId) (kind : string) : Expression :=
  Foreign id (MkMethods (fun _ => [OtherStep kind])).

Definition one : Expression := literal 3 "1".
Definition two : Expression := literal 4 "2".
Definition three : Expression := literal 6 "3".

(** The set literal [{ 1 2 }]. *)
Definition oneTwo : SetLiteral := MkSetLiteral 5 openToken [one; two] (Some closeToken).

Definition valueOne : Value := OtherValue "number" 1.
Definition valueTwo : Value := OtherValue "number" 2.
Definition below : Value := OtherValue "text" 0.

(** The value stack once the plans of [1] and [2] have run, over a value
    that was there before. *)
Definition afterElements : Evaluator := {| stack := [valueTwo; valueOne; below] |}.

(** A set computed earlier, handed back as the prior value. *)
Definition earlier : Value := SetValue (SetLiteralExpression oneTwo) [valueOne; valueTwo].

(** The set literal [{ { 1 2 } 3 }]. *)
Definition nested : SetLiteral :=
  MkSetLiteral 7 openToken [SetLiteralExpression oneTwo; three] (Some closeToken).

End SetLiteralExamples.

Module ConversionDefinitionExamples.
Import ConversionDefinition.

Definition convertSymbol : string := "→".

(** A parser that allocates one type node for the text it is given. *)
Definition parseOneType (source : string) : Alloc Type_ :=
  i <- fresh ;; ret {| type_id := i; type_source := source |}.

Definition docs0 : Docs := {| docs_id := 11; translations := [] |}.
Definition arrow0 : Token := {| token_id := 12; text := convertSymbol; type := CONVERT |}.
Definition numberType : Type_ := {| type_id := 13; type_source := "#" |}.
Definition textType : Type_ := {| type_id := 14; type_source := "''" |}.
Definition body0 : Expression := {| expression_id := 15; class := OtherExpression "Evaluate" |}.

(** The conversion [→ # '' body]. *)
Definition conversion0 : ConversionDefinition :=
  {| id := 10; docs := docs0; arrow := arrow0; input := numberType; output := textType;
     expression := body0 |}.

Definition booleanType : Type_ := {| type_id := 20; type_source := "?" |}.

Definition programNode : Node := OtherNode 1 "Program".
Definition programBlock : Node := ExpressionNode {| expression_id := 2; class := Block |}.
Definition structureNode : Node :=
  ExpressionNode {| expression_id := 3; class := StructureDefinition |}.
Definition structureBlock : Node := ExpressionNode {| expression_id := 4; class := Block |}.
Definition functionNode : Node :=
  ExpressionNode {| expression_id := 5; class := FunctionDefinition |}.

(** The conversion stands at the top level of the program: its binding
    scope is the program's block and no structure definition encloses it. *)
Definition atTopLevel : Context :=
  {| get := fun _ =>
       Some {| getParents := [programBlock; programNode];
               getBindingScope := Some programBlock |} |}.

(** The conversion stands in the block of a structure definition. *)
Definition inStructure : Context :=
  {| get := fun _ =>
       Some {| getParents := [structureBlock; structureNode; programBlock; programNode];
               getBindingScope := Some structureBlock |} |}.

(** The conversion is the body of a function definition, which is its
    binding scope. *)
Definition inFunction : Context :=
  {| get := fun _ =>
       Some {| getParents := [functionNode; programBlock; programNode];
               getBindingScope := Some functionNode |} |}.

End ConversionDefinitionExamples.

(** * Theorems *)

(** ** Replacing a child *)
Section ReplaceChildFacts.

Context {Node A : Type}.
Context {nodeIdentity : HasId Node} {childIdentity : HasId A} {nodeCast : Cast Node A}.

(** How a child of category [A] is viewed as a node. *)
Variable inject : A -> Node.
Hypothesis identity_inject : forall a, identity (inject a) = identity a.
Hypothesis cast_inject : forall a, cast (inject a) = Some a.

(** A slot whose child is the target only when the replacement fits the
    slot holds, after the replacement, what the contract asks. *)
Lemma replaceNode_substitute :
  forall (child : A) (original replacement : Node),
    (identity child = identity original -> exists a, replacement = inject a) ->
    inject (replaceNode child original replacement)
    = substitute original replacement (inject child).
Proof.
  intros child original replacement Hfit.
  unfold replaceNode, substitute. rewrite identity_inject.
  destruct (Nat.eqb_spec (identity child) (identity original)) as [E|_]; [|reflexivity].
  destruct (Hfit E) as [a ->]. rewrite cast_inject. reflexivity.
Qed.

Lemma replaceNodes_substitute :
  forall (children : list A) (original replacement : Node),
    (forall child, In child children ->
       identity child = identity original -> exists a, replacement = inject a) ->
    map inject (replaceNodes children original replacement)
    = map (substitute original replacement) (map inject children).
Proof.
  intros children original replacement Hfit.
  unfold replaceNodes. rewrite !map_map.
  apply map_ext_in. intros child Hin.
  apply replaceNode_substitute. exact (Hfit child Hin).
Qed.

End ReplaceChildFacts.

Section SubstituteFacts.

Context {Node : Type} {nodeIdentity : HasId Node}.

(** Nodes with distinct identities: equal identities mean the same node. *)
Lemma same_identity_same_node :
  forall (l : list Node) (x y : Node),
    NoDup (map identity l) -> In x l -> In y l -> identity x = identity y -> x = y.
Proof.
  induction l as [|n rest IH]; intros x y Hnd Hx Hy E; [destruct Hx|].
  cbn [map] in Hnd. inversion Hnd as [|? ? Hnotin Hrest]; subst.
  destruct Hx as [->|Hx], Hy as [->|Hy].
  - reflexivity.
  - exfalso. apply Hnotin. rewrite E. now apply in_map.
  - exfalso. apply Hnotin. rewrite <- E. now apply in_map.
  - now apply IH.
Qed.

Lemma substitute_others :
  forall (l : list Node) (original replacement : Node),
    (forall n, In n l -> identity n <> identity original) ->
    map (substitute original replacement) l = l.
Proof.
  induction l as [|n rest IH]; intros original replacement H; cbn [map]; [reflexivity|].
  rewrite IH by (intros m Hm; apply H; now right).
  unfold substitute.
  destruct (Nat.eqb_spec (identity n) (identity original)) as [E|_]; [|reflexivity].
  exfalso. exact (H n (or_introl eq_refl) E).
Qed.

(** Among nodes with distinct identities, substituting the node at
    position [i] changes position [i] and nothing else. *)
Lemma substitute_replaceAt :
  forall (l : list Node) (i : nat) (original replacement : Node),
    NoDup (map identity l) ->
    nth_error l i = Some original ->
    map (substitute original replacement) l = replaceAt i replacement l.
Proof.
  induction l as [|n rest IH]; intros i original replacement Hnd Hnth.
  - destruct i; discriminate Hnth.
  - cbn [map] in Hnd. inversion Hnd as [|? ? Hnotin Hrest]; subst.
    destruct i as [|j]; cbn [nth_error] in Hnth; cbn [map replaceAt].
    + injection Hnth as ->.
      unfold substitute at 1. rewrite Nat.eqb_refl. f_equal.
      apply substitute_others. intros m Hm E. apply Hnotin. rewrite <- E. now apply in_map.
    + rewrite (IH j original replacement Hrest Hnth).
      unfold substitute.
      destruct (Nat.eqb_spec (identity n) (identity original)) as [E|_]; [|reflexivity].
      exfalso. apply Hnotin. rewrite E. apply in_map. now apply nth_error_In with j.
Qed.

End SubstituteFacts.

(** ** nodes/Select *)
Module SelectProofs.
Import Select SelectExamples.

(** C2.  The plan of a select is a Start step for the select, then the plan
    of its table expression, then a Finish step for the select: the row and
    the query contribute no step, and the plan has two steps more than the
    table's. *)
Theorem Select_compile_table_only :
  forall (this : Select),
    compile (SelectExpression this)
    = Start (SelectExpression this) :: compile (table this) ++ [Finish (SelectExpression this)]
    /\ List.length (compile (SelectExpression this)) = 2 + List.length (compile (table this)).
Proof.
  intros [i t s r q]. cbn [compile table app].
  split; [reflexivity|].
  cbn [List.length]. rewrite length_app. cbn [List.length]. lia.
Qed.

(** [find] with the predicate [t === undefined] answers [undefined] on every
    array: what it finds is an [undefined] element. *)
Lemma js_find_isUndefined :
  forall (A : Type) (l : list (option A)), js_find isUndefined l = None.
Proof.
  induction l as [|x rest IH]; cbn; [reflexivity|].
  destruct x; cbn; [exact IH | reflexivity].
Qed.

(** The type of a select over a table: a table type holding, for each cell
    in order, the column the cell names, or [undefined] for a cell that
    names none. *)
Lemma Select_getType_of_table :
  forall (getColumnNamed : GetColumnNamed) (this : Select) (context : ConflictContext)
         (columns : list (option ColumnType)),
    getType getColumnNamed (table this) context = TableType columns ->
    getType getColumnNamed (SelectExpression this) context
    = TableType (map (cellColumn getColumnNamed columns) (cells (row this))).
Proof.
  intros gcn [i t s r q] context columns H. cbn [table row] in *.
  cbn [getType]. rewrite H. cbn zeta.
  rewrite js_find_isUndefined. reflexivity.
Qed.

(** The type of a select over an expression that is not a table. *)
Lemma Select_getType_not_a_table :
  forall (getColumnNamed : GetColumnNamed) (this : Select) (context : ConflictContext),
    (forall columns, getType getColumnNamed (table this) context <> TableType columns) ->
    getType getColumnNamed (SelectExpression this) context
    = UnknownType (SelectExpression this).
Proof.
  intros gcn [i t s r q] context H. cbn [table] in H.
  cbn [getType].
  destruct (getType gcn t context) as [columns| | |] eqn:E; try reflexivity.
  exfalso. exact (H columns eq_refl).
Qed.

(** C3, at a select naming a column the table does not have: [getType]
    answers a table type with an [undefined] column, not an unknown type. *)
Theorem Select_getType_missing_column :
  getType columnNamed (SelectExpression selectB) context0 = TableType [None]
  /\ columnNamed [Some columnA] "b" = None
  /\ getType columnNamed tableOfA context0 = TableType [Some columnA].
Proof.
  repeat split; reflexivity.
Qed.

(** C3, the part the code keeps: every cell names a column. *)
Lemma Select_getType_named_columns :
  getType columnNamed (SelectExpression selectA) context0 = TableType [Some columnA].
Proof. reflexivity. Qed.

(** C9.  Evaluating a select returns an exception value of kind
    NOT_IMPLEMENTED built on the select, whatever the evaluator holds: it
    never returns a table and never throws. *)
Theorem Select_evaluate_not_implemented :
  forall (this : Select) (evaluator : Evaluator),
    evaluate this evaluator = Returns (Exception (SelectExpression this) NOT_IMPLEMENTED)
    /\ (forall rows, evaluate this evaluator <> Returns (Table rows))
    /\ (forall error, evaluate this evaluator <> Throws error).
Proof.
  intros this evaluator. unfold evaluate.
  split; [reflexivity|].
  split; intros x H; discriminate H.
Qed.

End SelectProofs.

(** ** conflicts/MissingInput *)
Module MissingInputProofs.
Import MissingInput.

(** C5.  The conflicting nodes of a missing-input conflict: the primary node
    is the function expression of the call, the secondary node is the bind
    of the missing input, and the secondary explanation refers back to the
    call's function expression. *)
Theorem MissingInput_conflicting_nodes :
  forall (func : Definition_) (evaluate : Evaluation) (last : Token + Expression)
         (expected : Bind) (locales : Locales) (context : Context),
    let conflict := new_MissingInput func evaluate last expected in
    node (primary (getConflictingNodes conflict)) = fun_ evaluate
    /\ node (secondary (getConflictingNodes conflict)) = expected
    /\ inputs (explanation (secondary (getConflictingNodes conflict)) locales context)
       = [NodeRef (expression_id (fun_ evaluate))].
Proof.
  intros func evaluate last expected locales context conflict.
  unfold conflict, new_MissingInput, getConflictingNodes; cbn.
  repeat split.
Qed.

(** The primary explanation names the missing input: by reference when the
    project contains its bind, by concept path otherwise. *)
Lemma MissingInput_primary_explanation_input :
  forall (this : MissingInput) (locales : Locales) (context : Context),
    nth_error (inputs (explanation (primary (getConflictingNodes this)) locales context)) 1
    = Some (if contains (project context) (bind_id (input this))
            then NodeRef (bind_id (input this))
            else ConceptRef
                   (definition_getPreferredName (func this) (getLocales locales)
                      ++ "/" ++ bind_getPreferredName (input this) (getLocales locales))).
Proof.
  intros this locales context. reflexivity.
Qed.

End MissingInputProofs.

(** ** nodes/util *)
Module NodeUtilProofs.
Import NodeUtil.

(** *** requiredBindAfterOptional *)

Lemma bindsOf_map_inl :
  forall (B : Type) (binds : list Bind), bindsOf (map (@inl Bind B) binds) = binds.
Proof.
  induction binds as [|b rest IH]; cbn; [reflexivity|].
  now rewrite IH.
Qed.

Lemma bindsOf_length_le :
  forall (B : Type) (inputs : list (Bind + B)),
    List.length (bindsOf inputs) <= List.length inputs.
Proof.
  induction inputs as [|[b|u] rest IH]; cbn; lia.
Qed.

Lemma bindsOf_length_lt :
  forall (B : Type) (inputs : list (Bind + B)) (u : B),
    In (inr u) inputs -> List.length (bindsOf inputs) < List.length inputs.
Proof.
  induction inputs as [|[b|u'] rest IH]; intros u H; cbn.
  - destruct H.
  - destruct H as [H|H]; [discriminate H|].
    specialize (IH u H). lia.
  - pose proof (bindsOf_length_le B rest). lia.
Qed.

(** Binds without a default leave the scan where it is while no optional
    bind has been seen. *)
Lemma scan_required_prefix :
  forall (binds : list Bind),
    Forall (fun b => value b = None) binds ->
    fold_left scanBind binds (false, None) = (false, None).
Proof.
  induction binds as [|b rest IH]; intros H; cbn [fold_left]; [reflexivity|].
  inversion H as [|? ? Hb Hrest]; subst.
  assert (E : scanBind (false, None) b = (false, None))
    by (unfold scanBind; rewrite Hb; reflexivity).
  rewrite E. exact (IH Hrest).
Qed.

(** A bind with a default marks "optional seen" and records nothing. *)
Lemma scan_optional :
  forall (b : Bind) (found : bool) (req : option Bind),
    value b <> None -> scanBind (found, req) b = (true, req).
Proof.
  intros b found req H. unfold scanBind.
  destruct (value b); [reflexivity | contradiction].
Qed.

(** Binds with a default keep the scan at "optional seen". *)
Lemma scan_optionals :
  forall (binds : list Bind) (req : option Bind),
    Forall (fun b => value b <> None) binds ->
    fold_left scanBind binds (true, req) = (true, req).
Proof.
  induction binds as [|b rest IH]; intros req H; cbn [fold_left]; [reflexivity|].
  inversion H as [|? ? Hb Hrest]; subst.
  rewrite (scan_optional b true req Hb). exact (IH req Hrest).
Qed.

(** Once a required bind has been recorded, no later bind replaces it. *)
Lemma scan_after_found :
  forall (binds : list Bind) (r : Bind),
    fold_left scanBind binds (true, Some r) = (true, Some r).
Proof.
  induction binds as [|b rest IH]; intros r; cbn [fold_left]; [reflexivity|].
  assert (E : scanBind (true, Some r) b = (true, Some r))
    by (unfold scanBind; destruct (value b); reflexivity).
  rewrite E. exact (IH r).
Qed.

(** Every list of binds has one of the two shapes the scan tells apart:
    required binds, then an optional bind, further optional binds and a
    required bind; or required binds followed by optional binds only. *)
Lemma binds_shape :
  forall (binds : list Bind),
    (exists required optional optionals r rest,
        binds = required ++ optional :: optionals ++ r :: rest
        /\ Forall (fun b => value b = None) required
        /\ value optional <> None
        /\ Forall (fun b => value b <> None) optionals
        /\ value r = None)
    \/ (exists required optionals,
           binds = required ++ optionals
           /\ Forall (fun b => value b = None) required
           /\ Forall (fun b => value b <> None) optionals).
Proof.
  induction binds as [|b rest IH].
  - right. exists [], []. repeat split; constructor.
  - destruct (value b) as [v|] eqn:Hb.
    + assert (Hopt : value b <> None) by (rewrite Hb; discriminate).
      destruct IH as [(req & opt & opts & r & rest' & -> & Hreq & Ho & Hos & Hr)
                     |(req & opts & -> & Hreq & Hos)].
      * left. destruct req as [|r0 req'].
        -- exists [], b, (opt :: opts), r, rest'.
           repeat split; try assumption; constructor; assumption.
        -- inversion Hreq as [|? ? Hr0 Hreq']; subst.
           exists [], b, [], r0, (req' ++ opt :: opts ++ r :: rest').
           repeat split; try assumption; constructor.
      * destruct req as [|r0 req'].
        -- right. exists [], (b :: opts).
           repeat split; constructor; assumption.
        -- inversion Hreq as [|? ? Hr0 Hreq']; subst.
           left. exists [], b, [], r0, (req' ++ opts).
           repeat split; try assumption; constructor.
    + destruct IH as [(req & opt & opts & r & rest' & -> & Hreq & Ho & Hos & Hr)
                     |(req & opts & -> & Hreq & Hos)].
      * left. exists (b :: req), opt, opts, r, rest'.
        repeat split; try assumption. constructor; assumption.
      * right. exists (b :: req), opts.
        repeat split; try assumption. constructor; assumption.
Qed.

(** C10.  On a list of binds only, [requiredBindAfterOptional] names the
    first bind without a default that follows a bind with a default; it
    answers [undefined] when no bind without a default follows one with a
    default, and whenever the list holds an unparsable input, whatever the
    binds around it are. *)
Theorem requiredBindAfterOptional_first_required :
  forall (inputs : list (Bind + Unparsable)),
    (forall required optional optionals r rest,
        inputs = map inl (required ++ optional :: optionals ++ r :: rest) ->
        Forall (fun b => value b = None) required ->
        value optional <> None ->
        Forall (fun b => value b <> None) optionals ->
        value r = None ->
        requiredBindAfterOptional inputs = Some (RequiredAfterOptional r))
    /\ (forall required optionals,
           inputs = map inl (required ++ optionals) ->
           Forall (fun b => value b = None) required ->
           Forall (fun b => value b <> None) optionals ->
           requiredBindAfterOptional inputs = None)
    /\ (forall u, In (inr u) inputs -> requiredBindAfterOptional inputs = None).
Proof.
  intros inputs. split; [|split].
  - intros required optional optionals r rest -> Hreq Hopt Hopts Hr.
    unfold requiredBindAfterOptional.
    rewrite bindsOf_map_inl, length_map, Nat.eqb_refl.
    rewrite fold_left_app, (scan_required_prefix required Hreq).
    cbn [fold_left]. rewrite (scan_optional optional false None Hopt).
    rewrite fold_left_app, (scan_optionals optionals None Hopts).
    cbn [fold_left].
    assert (E : scanBind (true, None) r = (true, Some r))
      by (unfold scanBind; rewrite Hr; reflexivity).
    rewrite E, scan_after_found. reflexivity.
  - intros required optionals -> Hreq Hopts.
    unfold requiredBindAfterOptional.
    rewrite bindsOf_map_inl, length_map, Nat.eqb_refl.
    rewrite fold_left_app, (scan_required_prefix required Hreq).
    destruct optionals as [|o optionals']; [reflexivity|].
    inversion Hopts as [|? ? Ho Hos]; subst.
    cbn [fold_left]. rewrite (scan_optional o false None Ho).
    rewrite (scan_optionals optionals' None Hos). reflexivity.
  - intros u Hu.
    unfold requiredBindAfterOptional.
    pose proof (bindsOf_length_lt _ inputs u Hu) as Hlt.
    destruct (fold_left scanBind (bindsOf inputs) (false, None)) as [found req].
    replace (Nat.eqb (List.length inputs) (List.length (bindsOf inputs))) with false.
    + reflexivity.
    + symmetry. apply Nat.eqb_neq. lia.
Qed.

(** C10 at the inputs [a  b: 1  c  d], at [a  b: 1] and at inputs with
    an unparsable one. *)
Lemma requiredBindAfterOptional_witness :
  requiredBindAfterOptional NodeUtilExamples.inputsABCD
    = Some (RequiredAfterOptional NodeUtilExamples.requiredC)
  /\ requiredBindAfterOptional NodeUtilExamples.inputsAB = None
  /\ requiredBindAfterOptional NodeUtilExamples.inputsWithUnparsable = None.
Proof.
  split; [|split].
  - apply (proj1 (requiredBindAfterOptional_first_required NodeUtilExamples.inputsABCD)
             [NodeUtilExamples.requiredA] NodeUtilExamples.optionalB []
             NodeUtilExamples.requiredC [NodeUtilExamples.requiredD]).
    + reflexivity.
    + repeat constructor.
    + cbn. discriminate.
    + constructor.
    + reflexivity.
  - apply (proj1 (proj2 (requiredBindAfterOptional_first_required NodeUtilExamples.inputsAB))
             [NodeUtilExamples.requiredA] [NodeUtilExamples.optionalB]).
    + reflexivity.
    + repeat constructor.
    + repeat constructor. cbn. discriminate.
  - apply (proj2 (proj2 (requiredBindAfterOptional_first_required
                           NodeUtilExamples.inputsWithUnparsable))
             NodeUtilExamples.unparsable0).
    cbn. right. right. left. reflexivity.
Defined.

(** The caller reports what [requiredBindAfterOptional] answers. *)
Lemma getEvaluationInputConflicts_required_after_optional :
  forall (inputs : list (Bind + Unparsable)) (c : Conflict),
    requiredBindAfterOptional inputs = Some c ->
    In c (getEvaluationInputConflicts inputs).
Proof.
  intros inputs c H. unfold getEvaluationInputConflicts. rewrite H.
  set (d := getDuplicateAliases _). set (r := restIsNotLast _).
  assert (In c (pushIf (pushIf [] d) (Some c))) as Hin
    by (cbn [pushIf]; apply in_or_app; right; left; reflexivity).
  destruct r; cbn [pushIf]; [apply in_or_app; left|]; exact Hin.
Qed.

(** *** getCaseCollision *)

(** [find] answers the first element that passes the test. *)
Lemma find_first :
  forall {A : Type} (f : A -> bool) (l : list A) (x : A),
    List.find f l = Some x
    <-> exists before after,
          l = before ++ x :: after /\ f x = true /\ Forall (fun y => f y = false) before.
Proof.
  intros A f l x. split.
  - induction l as [|y rest IH]; intros H; [discriminate H|].
    cbn [List.find] in H. destruct (f y) eqn:Ey.
    + injection H as <-. exists [], rest. repeat split; [exact Ey|constructor].
    + destruct (IH H) as (before & after & -> & Hx & Hbefore).
      exists (y :: before), after. repeat split; [exact Hx|constructor; assumption].
  - intros (before & after & -> & Hx & Hbefore).
    induction before as [|y before' IH]; cbn [app List.find].
    + rewrite Hx. reflexivity.
    + inversion Hbefore as [|? ? Hy Hrest]; subst. rewrite Hy. exact (IH Hrest).
Qed.

Lemma find_nothing :
  forall {A : Type} (f : A -> bool) (l : list A),
    List.find f l = None <-> forall x, In x l -> f x = false.
Proof.
  intros A f l. split.
  - intros H x Hin. exact (find_none f l H x Hin).
  - induction l as [|y rest IH]; intros H; [reflexivity|].
    cbn [List.find]. rewrite (H y (or_introl eq_refl)).
    apply IH. intros x Hin. apply H. right. exact Hin.
Qed.

Lemma aliasIsNamed_true :
  forall (form : string) (n : Alias), aliasIsNamed form n = true <-> getName n = Some form.
Proof.
  intros form n. unfold aliasIsNamed. destruct (getName n) as [s|].
  - destruct (String.eqb_spec s form) as [->|Hne]; split; intros H; try reflexivity;
      try discriminate H. injection H as ->. contradiction.
  - split; intros H; discriminate H.
Qed.

Lemma aliasIsNamed_false :
  forall (form : string) (n : Alias), aliasIsNamed form n = false <-> getName n <> Some form.
Proof.
  intros form n. rewrite <- aliasIsNamed_true.
  destruct (aliasIsNamed form n); split; intros H; try reflexivity; try discriminate H;
    try (intros H'; discriminate H'). exfalso. exact (H eq_refl).
Qed.

Section CaseCollisionFacts.

Variable toLocaleUpperCase : string -> string.
Variable toLocaleLowerCase : string -> string.

(** The form looked up, for a name whose two case forms differ. *)
Lemma otherCase_of_cased_name :
  forall (name : string),
    toLocaleUpperCase name <> toLocaleLowerCase name ->
    otherCase toLocaleUpperCase toLocaleLowerCase name
    = Some (if String.eqb name (toLocaleUpperCase name)
            then toLocaleLowerCase name
            else toLocaleUpperCase name).
Proof.
  intros name H. unfold otherCase.
  destruct (String.eqb_spec (toLocaleUpperCase name) (toLocaleLowerCase name)) as [E|_];
    [contradiction|].
  destruct (String.eqb name (toLocaleUpperCase name)); reflexivity.
Qed.

(** Without an enclosing node, and for a name whose two case forms are the
    same, nothing is looked up. *)
Lemma getCaseCollision_nothing_to_look_up :
  forall (name : string) (enclosure : option Node) (context : Context) (node : NameOrAlias),
    enclosure = None \/ toLocaleUpperCase name = toLocaleLowerCase name ->
    getCaseCollision toLocaleUpperCase toLocaleLowerCase name enclosure context node = None.
Proof.
  intros name enclosure context node [->|E]; [reflexivity|].
  unfold getCaseCollision, otherCase. rewrite E, String.eqb_refl.
  destruct enclosure; reflexivity.
Qed.

(** C7, as the code has it.  For a name whose upper-case and lower-case
    forms differ, [getCaseCollision] looks up one other form of the name in
    the enclosing scope: the lower-case form of a name that is its own
    upper-case form, the upper-case form of any other name.  It answers a
    conflict exactly when that form resolves to a bind with an alias of
    exactly that form, and the conflict is the CaseSensitive one on the
    given node and the first such alias.  It answers nothing exactly when
    the form does not resolve to a bind with an alias of that form: an alias
    that differs from the name by case in another way is never reported. *)
Theorem getCaseCollision_other_case_form :
  forall (name : string) (enclosure : Node) (context : Context) (node : NameOrAlias),
    toLocaleUpperCase name <> toLocaleLowerCase name ->
    let form := if String.eqb name (toLocaleUpperCase name)
                then toLocaleLowerCase name
                else toLocaleUpperCase name in
    let result :=
      getCaseCollision toLocaleUpperCase toLocaleLowerCase name (Some enclosure) context node in
    (forall conflict,
        result = Some conflict
        <-> exists otherBind before alias after,
              getDefinitionOfName enclosure form context node
              = Some (BindDefinition otherBind)
              /\ aliases otherBind = before ++ alias :: after
              /\ getName alias = Some form
              /\ Forall (fun n => getName n <> Some form) before
              /\ conflict = CaseSensitive node alias)
    /\ (result = None
        <-> forall otherBind alias,
              getDefinitionOfName enclosure form context node
              = Some (BindDefinition otherBind) ->
              In alias (aliases otherBind) -> getName alias <> Some form).
Proof.
  intros name enclosure context node Hcased form result.
  pose proof (otherCase_of_cased_name name Hcased) as Hother. fold form in Hother.
  assert (Hresult :
            result
            = match getDefinitionOfName enclosure form context node with
              | Some (BindDefinition otherBind) =>
                  match List.find (aliasIsNamed form) (aliases otherBind) with
                  | Some alias => Some (CaseSensitive node alias)
                  | None => None
                  end
              | _ => None
              end).
  { unfold result, getCaseCollision. rewrite Hother. reflexivity. }
  rewrite Hresult. clear Hresult Hother result.
  destruct (getDefinitionOfName enclosure form context node) as [[b|i c]|].
  - destruct (List.find (aliasIsNamed form) (aliases b)) as [a|] eqn:Efind.
    + apply find_first in Efind. destruct Efind as (before & after & Hb & Ha & Hbefore).
      apply aliasIsNamed_true in Ha.
      assert (Hbefore' : Forall (fun n => getName n <> Some form) before).
      { apply Forall_impl with (2 := Hbefore). intros n. apply aliasIsNamed_false. }
      split.
      * intros conflict. split.
        -- intros H. injection H as <-. exists b, before, a, after. repeat split; assumption.
        -- intros (b' & before' & a' & after' & Hdef & Hb' & Ha' & Hfirst & ->).
           injection Hdef as <-.
           assert (Hsame : List.find (aliasIsNamed form) (aliases b) = Some a').
           { apply find_first. exists before', after'. repeat split; [exact Hb'| |].
             - apply aliasIsNamed_true. exact Ha'.
             - apply Forall_impl with (2 := Hfirst). intros n. apply aliasIsNamed_false. }
           assert (Hhere : List.find (aliasIsNamed form) (aliases b) = Some a).
           { apply find_first. exists before, after. repeat split; [exact Hb| |].
             - apply aliasIsNamed_true. exact Ha.
             - apply Forall_impl with (2 := Hbefore'). intros n. apply aliasIsNamed_false. }
           rewrite Hsame in Hhere. injection Hhere as ->. reflexivity.
      * split; [intros H; discriminate H|]. intros H. exfalso.
        apply (H b a eq_refl); [|exact Ha]. rewrite Hb. apply in_elt.
    + pose proof (proj1 (find_nothing _ _) Efind) as Hnone. split.
      * intros conflict. split; [intros H; discriminate H|].
        intros (b' & before' & a' & after' & Hdef & Hb' & Ha' & _ & _).
        injection Hdef as <-. exfalso.
        assert (Hin : In a' (aliases b)) by (rewrite Hb'; apply in_elt).
        apply (proj1 (aliasIsNamed_false form a') (Hnone a' Hin)). exact Ha'.
      * split; [|reflexivity]. intros _ b' a' Hdef Hin. injection Hdef as <-.
        apply aliasIsNamed_false. exact (Hnone a' Hin).
  - split.
    + intros conflict. split; [intros H; discriminate H|].
      intros (b' & before' & a' & after' & Hdef & _). discriminate Hdef.
    + split; [|reflexivity]. intros _ b' a' Hdef. discriminate Hdef.
  - split.
    + intros conflict. split; [intros H; discriminate H|].
      intros (b' & before' & a' & after' & Hdef & _). discriminate Hdef.
    + split; [|reflexivity]. intros _ b' a' Hdef. discriminate Hdef.
Qed.

End CaseCollisionFacts.

(** C7 at the name [foo] in a scope binding [FOO], and at
    the name [ab] in a scope binding [Ab]. *)
Lemma getCaseCollision_witness :
  getCaseCollision NodeUtilExamples.upperLetters NodeUtilExamples.lowerLetters
    "foo" (Some NodeUtilExamples.scopeFOO) NodeUtilExamples.context0
    (NodeUtilExamples.nameNode 90 "foo")
  = Some (CaseSensitive (NodeUtilExamples.nameNode 90 "foo") (NodeUtilExamples.aliasOf 61 "FOO"))
  /\ getCaseCollision NodeUtilExamples.upperLetters NodeUtilExamples.lowerLetters
       "ab" (Some NodeUtilExamples.scopeAb) NodeUtilExamples.context0
       (NodeUtilExamples.nameNode 90 "ab")
     = None.
Proof.
  split.
  - apply (proj1 (getCaseCollision_other_case_form
                    NodeUtilExamples.upperLetters NodeUtilExamples.lowerLetters
                    "foo" NodeUtilExamples.scopeFOO
                    NodeUtilExamples.context0 (NodeUtilExamples.nameNode 90 "foo")
                    ltac:(cbn; discriminate))).
    exists NodeUtilExamples.bindFOO, [], (NodeUtilExamples.aliasOf 61 "FOO"), [].
    repeat split; try reflexivity; constructor.
  - apply (proj2 (getCaseCollision_other_case_form
                    NodeUtilExamples.upperLetters NodeUtilExamples.lowerLetters
                    "ab" NodeUtilExamples.scopeAb
                    NodeUtilExamples.context0 (NodeUtilExamples.nameNode 90 "ab")
                    ltac:(cbn; discriminate))).
    intros otherBind alias Hdef. cbn in Hdef. discriminate Hdef.
Defined.

(** C7 as stated fails: the scope binds [Ab], which differs from [ab] only
    by letter case, the two case forms of [ab] differ, and no conflict is
    reported: only the form [AB] is looked up, and the case-sensitive scope
    does not bind it. *)
Lemma getCaseCollision_misses_mixed_case :
  differsOnlyByCase NodeUtilExamples.lowerLetters "ab" "Ab" = true
  /\ getDefinitionOfName NodeUtilExamples.scopeAb "Ab" NodeUtilExamples.context0
       (NodeUtilExamples.nameNode 90 "ab")
     = Some (BindDefinition NodeUtilExamples.bindAb)
  /\ String.eqb (NodeUtilExamples.upperLetters "ab") (NodeUtilExamples.lowerLetters "ab")
     = false
  /\ otherCase NodeUtilExamples.upperLetters NodeUtilExamples.lowerLetters "ab" = Some "AB"
  /\ getCaseCollision NodeUtilExamples.upperLetters NodeUtilExamples.lowerLetters
       "ab" (Some NodeUtilExamples.scopeAb) NodeUtilExamples.context0
       (NodeUtilExamples.nameNode 90 "ab")
     = None.
Proof.
  repeat split; reflexivity.
Qed.

(** *** analyzeRow *)

Section AnalyzeRowFacts.

Variable M : Methods.
Variable tableType : TableType.
Variable row : Row.
Variable context : Context.

(** Conflicts are only ever added. *)
Lemma checkCellType_keeps :
  forall conflicts column cell x,
    In x conflicts -> In x (checkCellType M tableType context conflicts column cell).
Proof.
  intros conflicts column cell x H. unfold checkCellType.
  destruct (negb _); [apply in_or_app; left|]; exact H.
Qed.

Lemma checkCellType_reports :
  forall conflicts column cell,
    accepts M (getValueType M column context) (getType M cell context) context = false ->
    In (IncompatibleCellType tableType cell (getValueType M column context)
          (getType M cell context))
       (checkCellType M tableType context conflicts column cell).
Proof.
  intros conflicts column cell H. unfold checkCellType. rewrite H. cbn.
  apply in_or_app. right. left. reflexivity.
Qed.

Lemma checkBindCell_keeps :
  forall cell conflicts matched x,
    In x conflicts ->
    In x (fst (checkBindCell M tableType context (conflicts, matched) cell)).
Proof.
  intros cell conflicts matched x H. unfold checkBindCell.
  destruct (cell_value cell) as [b|e]; [|exact H].
  destruct (getColumnNamed M tableType (hd_error (getNames M b))) as [column|]; cbn.
  - now apply checkCellType_keeps.
  - apply in_or_app. now left.
Qed.

Lemma checkBindCells_keep :
  forall cs conflicts matched x,
    In x conflicts ->
    In x (fst (fold_left (checkBindCell M tableType context) cs (conflicts, matched))).
Proof.
  induction cs as [|cell rest IH]; intros conflicts matched x H; cbn [fold_left].
  - exact H.
  - destruct (checkBindCell M tableType context (conflicts, matched) cell)
      as [conflicts' matched'] eqn:E.
    apply IH. change conflicts' with (fst (conflicts', matched')). rewrite <- E.
    now apply checkBindCell_keeps.
Qed.

(** A named cell whose type its column does not accept is reported. *)
Lemma checkBindCells_report :
  forall cs conflicts matched cell b column,
    In cell cs ->
    cell_value cell = inl b ->
    getColumnNamed M tableType (hd_error (getNames M b)) = Some column ->
    accepts M (getValueType M column context) (getType M cell context) context = false ->
    In (IncompatibleCellType tableType cell (getValueType M column context)
          (getType M cell context))
       (fst (fold_left (checkBindCell M tableType context) cs (conflicts, matched))).
Proof.
  induction cs as [|c rest IH]; intros conflicts matched cell b column Hin Hb Hcol Hacc.
  - destruct Hin.
  - cbn [fold_left].
    destruct (checkBindCell M tableType context (conflicts, matched) c)
      as [conflicts' matched'] eqn:E.
    destruct Hin as [->|Hin].
    + apply checkBindCells_keep.
      unfold checkBindCell in E. rewrite Hb, Hcol in E.
      injection E as <- _. now apply checkCellType_reports.
    + now apply (IH conflicts' matched' cell b column).
Qed.

Lemma includes_app :
  forall matched column c,
    includes (matched ++ [c]) column
    = includes matched column || Nat.eqb (column_id c) (column_id column).
Proof.
  intros matched column c. unfold includes.
  rewrite existsb_app. cbn. now rewrite orb_false_r.
Qed.

(** The matched columns are the columns the cells name. *)
Lemma checkBindCells_matched :
  forall cs conflicts matched column,
    includes (snd (fold_left (checkBindCell M tableType context) cs (conflicts, matched)))
             column
    = includes matched column || existsb (namedBy M tableType column) cs.
Proof.
  induction cs as [|cell rest IH]; intros conflicts matched column; cbn [fold_left existsb].
  - cbn. now rewrite orb_false_r.
  - destruct (checkBindCell M tableType context (conflicts, matched) cell)
      as [conflicts' matched'] eqn:E.
    rewrite IH. unfold checkBindCell in E.
    change (namedBy M tableType column cell)
      with (match cell_value cell with
            | inl b0 =>
                match getColumnNamed M tableType (hd_error (getNames M b0)) with
                | Some c0 => Nat.eqb (column_id c0) (column_id column)
                | None => false
                end
            | inr _ => false
            end).
    destruct (cell_value cell) as [b|e].
    + destruct (getColumnNamed M tableType (hd_error (getNames M b))) as [c|].
      * injection E as _ <-. rewrite includes_app. now rewrite orb_assoc.
      * injection E as _ <-. reflexivity.
    + injection E as _ <-. reflexivity.
Qed.

Lemma checkSpecified_keeps :
  forall cols matched conflicts x,
    In x conflicts ->
    In x (fold_left (checkSpecified M tableType row matched) cols conflicts).
Proof.
  induction cols as [|c rest IH]; intros matched conflicts x H; cbn [fold_left].
  - exact H.
  - apply IH. unfold checkSpecified.
    destruct (negb _ && negb _); [apply in_or_app; left|]; exact H.
Qed.

(** A column that no cell names and that has no default is reported. *)
Lemma checkSpecified_reports :
  forall cols matched conflicts column,
    In column cols ->
    includes matched column = false ->
    hasDefault M column = false ->
    In (MissingCell row tableType column)
       (fold_left (checkSpecified M tableType row matched) cols conflicts).
Proof.
  induction cols as [|c rest IH]; intros matched conflicts column Hin Hinc Hdef.
  - destruct Hin.
  - cbn [fold_left]. destruct Hin as [->|Hin].
    + apply checkSpecified_keeps. unfold checkSpecified. rewrite Hinc, Hdef. cbn.
      apply in_or_app. right. left. reflexivity.
    + now apply IH.
Qed.

Lemma checkPositional_keeps :
  forall cols cs conflicts x,
    In x conflicts ->
    In x (checkPositional M tableType row context cols cs conflicts).
Proof.
  induction cols as [|c rest IH]; intros cs conflicts x H; cbn [checkPositional].
  - exact H.
  - destruct cs as [|cell cells'].
    + apply IH. apply in_or_app. now left.
    + apply IH. now apply checkCellType_keeps.
Qed.

(** A column past the last cell of an unnamed row is reported. *)
Lemma checkPositional_missing :
  forall cols cs conflicts index column,
    nth_error cols index = Some column ->
    List.length cs <= index ->
    In (MissingCell row tableType column)
       (checkPositional M tableType row context cols cs conflicts).
Proof.
  induction cols as [|c rest IH]; intros cs conflicts index column Hnth Hlen.
  - destruct index; discriminate Hnth.
  - cbn [checkPositional]. destruct index as [|index'].
    + injection Hnth as ->. destruct cs as [|cell cells']; [|cbn in Hlen; lia].
      apply checkPositional_keeps. apply in_or_app. right. left. reflexivity.
    + cbn in Hnth. destruct cs as [|cell cells'].
      * apply (IH [] _ index' column Hnth). cbn. lia.
      * apply (IH cells' _ index' column Hnth). cbn in Hlen. lia.
Qed.

(** An unnamed cell whose type the column at its position does not accept
    is reported. *)
Lemma checkPositional_reports :
  forall cols cs conflicts index column cell,
    nth_error cols index = Some column ->
    nth_error cs index = Some cell ->
    accepts M (getValueType M column context) (getType M cell context) context = false ->
    In (IncompatibleCellType tableType cell (getValueType M column context)
          (getType M cell context))
       (checkPositional M tableType row context cols cs conflicts).
Proof.
  induction cols as [|c rest IH]; intros cs conflicts index column cell Hcol Hcell Hacc.
  - destruct index; discriminate Hcol.
  - cbn [checkPositional]. destruct index as [|index'].
    + injection Hcol as ->. destruct cs as [|c0 cells']; [discriminate Hcell|].
      injection Hcell as ->.
      apply checkPositional_keeps. now apply checkCellType_reports.
    + cbn in Hcol. destruct cs as [|c0 cells']; [discriminate Hcell|].
      cbn in Hcell. now apply (IH cells' _ index' column cell).
Qed.

End AnalyzeRowFacts.

(** C4, as the code has it.  A row that mixes named cells and unnamed
    expression cells gets the single conflict InvalidRow.  For any other
    row, every column that receives no value and has no default gets a
    MissingCell conflict, and every provided cell whose type its column's
    value type does not accept gets an IncompatibleCellType conflict. *)
Theorem analyzeRow_reports :
  forall (M : Methods) (tableType : TableType) (row : Row) (context : Context),
    (mixed row = true -> analyzeRow M tableType row context = [InvalidRow row])
    /\ (mixed row = false ->
        (forall index column,
            nth_error (columns tableType) index = Some column ->
            receivesValue M tableType row index column = false ->
            hasDefault M column = false ->
            In (MissingCell row tableType column) (analyzeRow M tableType row context))
        /\ (forall index cell column,
               nth_error (cells row) index = Some cell ->
               columnOfCell M tableType row index cell = Some column ->
               accepts M (getValueType M column context) (getType M cell context) context
               = false ->
               In (IncompatibleCellType tableType cell (getValueType M column context)
                     (getType M cell context))
                  (analyzeRow M tableType row context))).
Proof.
  intros M tableType row context.
  unfold mixed, analyzeRow, receivesValue, columnOfCell.
  destruct (allBinds row) eqn:Hbinds; cbn [negb andb].
  - split; [discriminate|]. intros _.
    destruct (fold_left (checkBindCell M tableType context) (cells row) ([], []))
      as [conflicts matched] eqn:E.
    split.
    + intros index column Hnth Hnone Hdef.
      apply checkSpecified_reports; [now apply nth_error_In with index| |exact Hdef].
      change matched with (snd (conflicts, matched)). rewrite <- E.
      rewrite checkBindCells_matched. exact Hnone.
    + intros index cell column Hnth Hcol Hacc.
      apply checkSpecified_keeps.
      change conflicts with (fst (conflicts, matched)). rewrite <- E.
      destruct (cell_value cell) as [b|e] eqn:Hb; [|discriminate Hcol].
      apply (checkBindCells_report M tableType context (cells row) [] [] cell b column);
        [now apply nth_error_In with index|exact Hb|exact Hcol|exact Hacc].
  - destruct (allExpressions row) eqn:Hexprs; cbn [negb].
    + split; [discriminate|]. intros _. split.
      * intros index column Hnth Hnone Hdef.
        apply (checkPositional_missing M tableType row context _ _ _ index); [exact Hnth|].
        apply Nat.ltb_ge. exact Hnone.
      * intros index cell column Hnth Hcol Hacc.
        now apply (checkPositional_reports M tableType row context _ _ _ index).
    + split; [reflexivity|discriminate].
Qed.

(** C4 at the mixed row [a: 'x'  2], the named row
    [a: 1  b: 'x'] and the unnamed row [2  'y'] of a table [a b c]. *)
Lemma analyzeRow_witness :
  analyzeRow NodeUtilExamples.methods0 NodeUtilExamples.tableABC NodeUtilExamples.mixedRow
    NodeUtilExamples.context0
  = [InvalidRow NodeUtilExamples.mixedRow]
  /\ In (MissingCell NodeUtilExamples.namedRow NodeUtilExamples.tableABC
           NodeUtilExamples.columnC)
        (analyzeRow NodeUtilExamples.methods0 NodeUtilExamples.tableABC
           NodeUtilExamples.namedRow NodeUtilExamples.context0)
  /\ In (IncompatibleCellType NodeUtilExamples.tableABC NodeUtilExamples.cellPlainText
           NodeUtilExamples.numberType NodeUtilExamples.textType)
        (analyzeRow NodeUtilExamples.methods0 NodeUtilExamples.tableABC
           NodeUtilExamples.plainRow NodeUtilExamples.context0).
Proof.
  split; [|split].
  - apply (proj1 (analyzeRow_reports NodeUtilExamples.methods0 NodeUtilExamples.tableABC
                    NodeUtilExamples.mixedRow NodeUtilExamples.context0)).
    reflexivity.
  - apply (proj1 (proj2 (analyzeRow_reports NodeUtilExamples.methods0
                           NodeUtilExamples.tableABC NodeUtilExamples.namedRow
                           NodeUtilExamples.context0) eq_refl) 2);
      reflexivity.
  - apply (proj2 (proj2 (analyzeRow_reports NodeUtilExamples.methods0
                           NodeUtilExamples.tableABC NodeUtilExamples.plainRow
                           NodeUtilExamples.context0) eq_refl) 1
             NodeUtilExamples.cellPlainText NodeUtilExamples.columnB);
      reflexivity.
Defined.

(** C4 as stated fails on a mixed row.  In the row [a: 'x'  2] of a table
    [a b c], column [c] has no default and receives no value, by name or
    by position, and the cell [a: 'x'] gives a text to the number column
    [a]; the only conflict is InvalidRow: no MissingCell for [c] and no
    IncompatibleCellType for the cell. *)
Lemma analyzeRow_mixed_row_only_invalid :
  mixed NodeUtilExamples.mixedRow = true
  /\ hasDefault NodeUtilExamples.methods0 NodeUtilExamples.columnC = false
  /\ existsb (namedBy NodeUtilExamples.methods0 NodeUtilExamples.tableABC
                NodeUtilExamples.columnC) (cells NodeUtilExamples.mixedRow) = false
  /\ nth_error (columns NodeUtilExamples.tableABC) 2 = Some NodeUtilExamples.columnC
  /\ nth_error (cells NodeUtilExamples.mixedRow) 2 = None
  /\ namedBy NodeUtilExamples.methods0 NodeUtilExamples.tableABC NodeUtilExamples.columnA
       NodeUtilExamples.cellAText = true
  /\ accepts NodeUtilExamples.methods0
       (getValueType NodeUtilExamples.methods0 NodeUtilExamples.columnA
          NodeUtilExamples.context0)
       (getType NodeUtilExamples.methods0 NodeUtilExamples.cellAText
          NodeUtilExamples.context0)
       NodeUtilExamples.context0 = false
  /\ analyzeRow NodeUtilExamples.methods0 NodeUtilExamples.tableABC NodeUtilExamples.mixedRow
       NodeUtilExamples.context0
     = [InvalidRow NodeUtilExamples.mixedRow]
  /\ ~ In (MissingCell NodeUtilExamples.mixedRow NodeUtilExamples.tableABC
             NodeUtilExamples.columnC)
          (analyzeRow NodeUtilExamples.methods0 NodeUtilExamples.tableABC
             NodeUtilExamples.mixedRow NodeUtilExamples.context0)
  /\ ~ In (IncompatibleCellType NodeUtilExamples.tableABC NodeUtilExamples.cellAText
             NodeUtilExamples.numberType NodeUtilExamples.textType)
          (analyzeRow NodeUtilExamples.methods0 NodeUtilExamples.tableABC
             NodeUtilExamples.mixedRow NodeUtilExamples.context0).
Proof.
  repeat split; try reflexivity.
  - cbn. intros [H|[]]. discriminate H.
  - cbn. intros [H|[]]. discriminate H.
Qed.

End NodeUtilProofs.

(** ** nodes/SetLiteral *)
Module SetLiteralProofs.
Import SetLiteral.

(** The left fold that appends the plan of each item is the concatenation
    of the plans, in the order of the items. *)
Lemma compile_items_concat :
  forall (context : Context) (items : list Expression) (steps : list Step),
    fold_left (fun steps item => steps ++ compile item context) items steps
    = steps ++ List.concat (map (fun item => compile item context) items).
Proof.
  intros context items.
  induction items as [|item rest IH]; intros steps; cbn [fold_left map List.concat].
  - now rewrite app_nil_r.
  - rewrite IH. now rewrite <- app_assoc.
Qed.

(** Popping as many values as [vs] has from a stack that holds [vs] pushed
    in order gives [vs] back in that order and leaves what was below. *)
Lemma popValues_pushed :
  forall (this : Expression) (vs rest acc : list Value),
    popValues this (List.length vs) {| stack := rev vs ++ rest |} acc
    = (vs ++ acc, {| stack := rest |}).
Proof.
  intros this vs. induction vs as [|v vs' IH] using rev_ind; intros rest acc.
  - reflexivity.
  - rewrite length_app, Nat.add_comm. cbn [List.length Nat.add].
    rewrite rev_app_distr. cbn [rev app popValues].
    unfold popValue. cbn [stack].
    rewrite IH. now rewrite <- app_assoc.
Qed.

(** C6, as the code has it.  The plan of a set literal is a Start step for
    the literal, then the plans of its elements from left to right, then a
    Finish step.  Evaluated without a prior value on a stack holding the
    values of the n elements, pushed from left to right, the literal pops
    exactly those n values and answers the Set built on them in source
    order.  Evaluated with a prior value, it answers that value and leaves
    the stack as it is. *)
Theorem SetLiteral_compile_evaluate :
  forall (this : SetLiteral) (context : Context) (vs rest : list Value),
    List.length vs = List.length (values this) ->
    compile (SetLiteralExpression this) context
    = Start (SetLiteralExpression this)
        :: List.concat (map (fun item => compile item context) (values this))
        ++ [Finish (SetLiteralExpression this)]
    /\ evaluate this {| stack := rev vs ++ rest |} None
       = (SetValue (SetLiteralExpression this) vs, {| stack := rest |})
    /\ (forall (evaluator : Evaluator) (prior : Value),
           evaluate this evaluator (Some prior) = (prior, evaluator)).
Proof.
  intros this context vs rest Hlen. split; [|split].
  - destruct this as [i o items c]. cbn [compile values].
    rewrite compile_items_concat. reflexivity.
  - unfold evaluate. rewrite <- Hlen.
    rewrite popValues_pushed. now rewrite app_nil_r.
  - reflexivity.
Qed.

(** C6 at [{ 1 2 }], evaluated without a prior value. *)
Lemma SetLiteral_compile_evaluate_witness :
  compile (SetLiteralExpression SetLiteralExamples.oneTwo) SetLiteralExamples.context0
  = [ Start (SetLiteralExpression SetLiteralExamples.oneTwo); OtherStep "1"; OtherStep "2";
      Finish (SetLiteralExpression SetLiteralExamples.oneTwo) ]
  /\ evaluate SetLiteralExamples.oneTwo SetLiteralExamples.afterElements None
     = (SetValue (SetLiteralExpression SetLiteralExamples.oneTwo)
          [SetLiteralExamples.valueOne; SetLiteralExamples.valueTwo],
        {| stack := [SetLiteralExamples.below] |}).
Proof.
  pose proof (SetLiteral_compile_evaluate SetLiteralExamples.oneTwo
                SetLiteralExamples.context0
                [SetLiteralExamples.valueOne; SetLiteralExamples.valueTwo]
                [SetLiteralExamples.below] eq_refl) as [Hplan [Hvalue _]].
  split; [exact Hplan | exact Hvalue].
Defined.

(** C6 as stated fails when a prior value is supplied: [{ 1 2 }] has two
    elements, yet evaluating it with a prior value answers that value and
    leaves the stack as it was, popping nothing. *)
Lemma SetLiteral_evaluate_prior_pops_nothing :
  List.length (values SetLiteralExamples.oneTwo) = 2
  /\ evaluate SetLiteralExamples.oneTwo SetLiteralExamples.afterElements
       (Some SetLiteralExamples.earlier)
     = (SetLiteralExamples.earlier, SetLiteralExamples.afterElements)
  /\ stack (snd (evaluate SetLiteralExamples.oneTwo SetLiteralExamples.afterElements
                   (Some SetLiteralExamples.earlier)))
     = [SetLiteralExamples.valueTwo; SetLiteralExamples.valueOne; SetLiteralExamples.below].
Proof.
  repeat split; reflexivity.
Qed.

(** *** clone *)

(** A replacement of the category of the target fits the slot of the
    target, and only that slot has the identity of the target. *)
Lemma token_slot_fits :
  forall (l : list Node) (o r : Node) (t : Token),
    NoDup (map identity l) -> In o l -> In (TokenNode t) l ->
    sameCategory o r = true ->
    identity t = identity o -> exists a, r = TokenNode a.
Proof.
  intros l o r t Hnd Ho Ht Hcat E.
  assert (TokenNode t = o) as <- by (apply (same_identity_same_node l); assumption).
  destruct r as [a|e]; [now exists a | discriminate Hcat].
Qed.

Lemma expression_slot_fits :
  forall (l : list Node) (o r : Node) (e : Expression),
    NoDup (map identity l) -> In o l -> In (ExpressionNode e) l ->
    sameCategory o r = true ->
    identity e = identity o -> exists a, r = ExpressionNode a.
Proof.
  intros l o r e Hnd Ho He Hcat E.
  assert (ExpressionNode e = o) as <- by (apply (same_identity_same_node l); assumption).
  destruct r as [t|a]; [discriminate Hcat | now exists a].
Qed.

(** Cloning a set literal with a replacement for one of its children gives
    a set literal with a new identity whose children are the original ones,
    except that the replacement stands where the target stood. *)
Lemma clone_replaces_one_child :
  forall (this : SetLiteral) (i : nat) (o r : Node) (next : NodeId),
    nth_error (children this) i = Some o ->
    NoDup (map identity (children this)) ->
    sameCategory o r = true ->
    let result := fst (clone this (Some {| original := o; replacement := r |}) next) in
    id result = next
    /\ children result = replaceAt i r (children this).
Proof.
  intros this i o r next Hnth Hnd Hcat result.
  assert (Ho : In o (children this)) by (now apply nth_error_In with i).
  split; [reflexivity|].
  rewrite <- (substitute_replaceAt (children this) i o r Hnd Hnth).
  unfold result. cbn [clone new_SetLiteral bind fresh ret fst].
  unfold children at 1 2. cbn [open values close].
  cbn [replaceChild replaceChildren replaceOptionalChild original replacement].
  cbn [map]. rewrite map_app. f_equal; [|f_equal].
  - apply (replaceNode_substitute TokenNode); [reflexivity|reflexivity|].
    apply (token_slot_fits (children this) o r (open this) Hnd Ho); [|exact Hcat].
    left. reflexivity.
  - apply (replaceNodes_substitute ExpressionNode); [reflexivity|reflexivity|].
    intros child Hin.
    apply (expression_slot_fits (children this) o r child Hnd Ho); [|exact Hcat].
    right. apply in_or_app. left. now apply in_map.
  - destruct (close this) as [c|] eqn:Hclose;
      cbn [replaceOptionalNode option_map map]; [|reflexivity].
    f_equal.
    apply (replaceNode_substitute TokenNode); [reflexivity|reflexivity|].
    apply (token_slot_fits (children this) o r c Hnd Ho); [|exact Hcat].
    right. apply in_or_app. right. unfold children. rewrite Hclose. left. reflexivity.
Qed.

End SetLiteralProofs.

(** ** nodes/ConversionDefinition *)
Module ConversionDefinitionProofs.
Import ConversionDefinition.

(** *** replace *)

(** A replacement of the category of the target fits the slot of the
    target, and only that slot has the identity of the target. *)
Lemma slot_fits :
  forall (A : Type) (childIdentity : HasId A) (inject : A -> Node)
         (l : list Node) (o r : Node) (child : A),
    (forall a, identity (inject a) = identity a) ->
    (forall a, sameCategory (inject a) r = true -> exists b, r = inject b) ->
    NoDup (map identity l) -> In o l -> In (inject child) l ->
    sameCategory o r = true ->
    identity child = identity o -> exists a, r = inject a.
Proof.
  intros A childIdentity inject l o r child Hid Hcat Hnd Ho Hchild Hsame E.
  assert (inject child = o) as Heq
    by (apply (same_identity_same_node l); try assumption; now rewrite Hid).
  apply (Hcat child). now rewrite Heq.
Qed.

(** Replacing a child of a conversion definition gives a conversion
    definition with a new identity whose children are the original ones,
    except that the replacement stands where the target stood. *)
Lemma replace_replaces_one_child :
  forall (CONVERT_SYMBOL : string) (parseType : string -> Alloc Type_)
         (this : ConversionDefinition) (pretty : bool) (i : nat) (o r : Node)
         (next : NodeId),
    nth_error (children this) i = Some o ->
    NoDup (map identity (children this)) ->
    sameCategory o r = true ->
    let result := fst (replace CONVERT_SYMBOL parseType this pretty (Some o) (Some r) next) in
    id result = next
    /\ children result = replaceAt i r (children this).
Proof.
  intros CONVERT_SYMBOL parseType this pretty i o r next Hnth Hnd Hcat result.
  assert (Ho : In o (children this)) by (now apply nth_error_In with i).
  split; [reflexivity|].
  rewrite <- (substitute_replaceAt (children this) i o r Hnd Hnth).
  unfold result. cbn [replace new_ConversionDefinition bind fresh ret fst].
  unfold children.
  cbn [docs arrow input output expression replaceChild map].
  repeat f_equal.
  - apply (replaceNode_substitute DocsNode); [reflexivity|reflexivity|].
    apply (slot_fits Docs _ DocsNode (children this) o r); try assumption;
      [reflexivity| |cbn; tauto].
    intros a H. destruct r; try discriminate H. eauto.
  - apply (replaceNode_substitute TokenNode); [reflexivity|reflexivity|].
    apply (slot_fits Token _ TokenNode (children this) o r); try assumption;
      [reflexivity| |cbn; tauto].
    intros a H. destruct r; try discriminate H. eauto.
  - apply (replaceNode_substitute TypeNode); [reflexivity|reflexivity|].
    apply (slot_fits Type_ _ TypeNode (children this) o r); try assumption;
      [reflexivity| |cbn; tauto].
    intros a H. destruct r; try discriminate H. eauto.
  - apply (replaceNode_substitute TypeNode); [reflexivity|reflexivity|].
    apply (slot_fits Type_ _ TypeNode (children this) o r); try assumption;
      [reflexivity| |cbn; tauto].
    intros a H. destruct r; try discriminate H. eauto.
  - apply (replaceNode_substitute ExpressionNode); [reflexivity|reflexivity|].
    apply (slot_fits Expression _ ExpressionNode (children this) o r); try assumption;
      [reflexivity| |cbn; tauto].
    intros a H. destruct r; try discriminate H. eauto.
Qed.

(** *** computeConflicts *)

(** C8, as the code has it.  For a conversion definition whose binding
    scope resolves, [computeConflicts] answers exactly one
    MisplacedConversion conflict, built on the definition, when the binding
    scope is not a block, and no conflict when the binding scope is a
    block. *)
Theorem computeConflicts_block_scope :
  forall (this : ConversionDefinition) (context : Context) (tree : Tree) (scope : Node),
    get context (id this) = Some tree ->
    getBindingScope tree = Some scope ->
    computeConflicts this context
    = if isBlock scope then [] else [MisplacedConversion this].
Proof.
  intros this context tree scope Hget Hscope.
  unfold computeConflicts. rewrite Hget, Hscope.
  destruct (isBlock scope); reflexivity.
Qed.

(** A conversion definition that is not in the program, or that has no
    binding scope, gets no conflict. *)
Lemma computeConflicts_without_scope :
  forall (this : ConversionDefinition) (context : Context),
    get context (id this) = None
    \/ (exists tree, get context (id this) = Some tree /\ getBindingScope tree = None) ->
    computeConflicts this context = [].
Proof.
  intros this context [H|[tree [H1 H2]]]; unfold computeConflicts.
  - now rewrite H.
  - now rewrite H1, H2.
Qed.

(** C8 for a conversion in the block of a structure
    definition and for one whose binding scope is a function definition. *)
Lemma computeConflicts_block_scope_witness :
  computeConflicts ConversionDefinitionExamples.conversion0
    ConversionDefinitionExamples.inStructure = []
  /\ computeConflicts ConversionDefinitionExamples.conversion0
       ConversionDefinitionExamples.inFunction
     = [MisplacedConversion ConversionDefinitionExamples.conversion0].
Proof.
  split.
  - exact (computeConflicts_block_scope ConversionDefinitionExamples.conversion0
             ConversionDefinitionExamples.inStructure _
             ConversionDefinitionExamples.structureBlock eq_refl eq_refl).
  - exact (computeConflicts_block_scope ConversionDefinitionExamples.conversion0
             ConversionDefinitionExamples.inFunction _
             ConversionDefinitionExamples.functionNode eq_refl eq_refl).
Defined.

(** C8 as stated fails: a conversion at the top level of a program has a
    binding scope, the program's block, and no structure definition
    encloses it, yet no conflict is reported. *)
Lemma computeConflicts_top_level_block :
  get ConversionDefinitionExamples.atTopLevel (id ConversionDefinitionExamples.conversion0)
  = Some {| getParents := [ConversionDefinitionExamples.programBlock;
                           ConversionDefinitionExamples.programNode];
            getBindingScope := Some ConversionDefinitionExamples.programBlock |}
  /\ inStructureDefinition
       {| getParents := [ConversionDefinitionExamples.programBlock;
                         ConversionDefinitionExamples.programNode];
          getBindingScope := Some ConversionDefinitionExamples.programBlock |} = false
  /\ isStructureDefinition ConversionDefinitionExamples.programBlock = false
  /\ computeConflicts ConversionDefinitionExamples.conversion0
       ConversionDefinitionExamples.atTopLevel = [].
Proof.
  repeat split; reflexivity.
Qed.

End ConversionDefinitionProofs.

(** ** The replacement contract on both classes *)
Module ReplacementProofs.

(** C1.  Replacing a child of a node gives a node of the same class, with
    an identity of its own, in which the slot of the target holds the
    replacement and every other slot holds the very child it held before.
    The target is one of the node's children, the children are distinct
    objects, and the replacement is of the category of the target.  For a
    conversion definition this is [replace], for a set literal [clone]. *)
Theorem replace_substitutes_one_slot :
  (forall (CONVERT_SYMBOL : string)
          (parseType : string -> Alloc ConversionDefinition.Type_)
          (this : ConversionDefinition.ConversionDefinition) (pretty : bool)
          (i : nat) (o r : ConversionDefinition.Node) (next : NodeId),
      nth_error (ConversionDefinition.children this) i = Some o ->
      NoDup (map identity (ConversionDefinition.children this)) ->
      ConversionDefinition.sameCategory o r = true ->
      let result :=
        fst (ConversionDefinition.replace CONVERT_SYMBOL parseType this pretty
               (Some o) (Some r) next) in
      ConversionDefinition.id result = next
      /\ ConversionDefinition.children result
         = replaceAt i r (ConversionDefinition.children this))
  /\ (forall (this : SetLiteral.SetLiteral) (i : nat) (o r : SetLiteral.Node)
             (next : NodeId),
         nth_error (SetLiteral.children this) i = Some o ->
         NoDup (map identity (SetLiteral.children this)) ->
         SetLiteral.sameCategory o r = true ->
         let result :=
           fst (SetLiteral.clone this
                  (Some {| SetLiteral.original := o; SetLiteral.replacement := r |}) next) in
         SetLiteral.id result = next
         /\ SetLiteral.children result = replaceAt i r (SetLiteral.children this)).
Proof.
  split.
  - exact ConversionDefinitionProofs.replace_replaces_one_child.
  - exact SetLiteralProofs.clone_replaces_one_child.
Qed.

(** C1 at the conversion [→ # '' body], replacing its input type,
    and at the set literal [{ 1 2 }], replacing its second element. *)
Lemma replace_substitutes_one_slot_witness :
  ConversionDefinition.children
    (fst (ConversionDefinition.replace ConversionDefinitionExamples.convertSymbol
            ConversionDefinitionExamples.parseOneType
            ConversionDefinitionExamples.conversion0 false
            (Some (ConversionDefinition.TypeNode ConversionDefinitionExamples.numberType))
            (Some (ConversionDefinition.TypeNode ConversionDefinitionExamples.booleanType))
            100))
  = [ ConversionDefinition.DocsNode ConversionDefinitionExamples.docs0;
      ConversionDefinition.TokenNode ConversionDefinitionExamples.arrow0;
      ConversionDefinition.TypeNode ConversionDefinitionExamples.booleanType;
      ConversionDefinition.TypeNode ConversionDefinitionExamples.textType;
      ConversionDefinition.ExpressionNode ConversionDefinitionExamples.body0 ]
  /\ SetLiteral.children
       (fst (SetLiteral.clone SetLiteralExamples.oneTwo
               (Some {| SetLiteral.original := SetLiteral.ExpressionNode SetLiteralExamples.two;
                        SetLiteral.replacement :=
                          SetLiteral.ExpressionNode SetLiteralExamples.three |})
               100))
     = [ SetLiteral.TokenNode SetLiteralExamples.openToken;
         SetLiteral.ExpressionNode SetLiteralExamples.one;
         SetLiteral.ExpressionNode SetLiteralExamples.three;
         SetLiteral.TokenNode SetLiteralExamples.closeToken ].
Proof.
  assert (distinct5 : NoDup [11; 12; 13; 14; 15])
    by (repeat constructor; cbn; intuition discriminate).
  assert (distinct4 : NoDup [1; 3; 4; 2])
    by (repeat constructor; cbn; intuition discriminate).
  split.
  - exact (proj2 (proj1 replace_substitutes_one_slot
                    ConversionDefinitionExamples.convertSymbol
                    ConversionDefinitionExamples.parseOneType
                    ConversionDefinitionExamples.conversion0 false 2
                    (ConversionDefinition.TypeNode ConversionDefinitionExamples.numberType)
                    (ConversionDefinition.TypeNode ConversionDefinitionExamples.booleanType)
                    100 eq_refl distinct5 eq_refl)).
  - exact (proj2 (proj2 replace_substitutes_one_slot
                    SetLiteralExamples.oneTwo 2
                    (SetLiteral.ExpressionNode SetLiteralExamples.two)
                    (SetLiteral.ExpressionNode SetLiteralExamples.three)
                    100 eq_refl distinct4 eq_refl)).
Defined.

End ReplacementProofs.

(** ** nodes/util: duplicate names, languages and type variables *)
Module DuplicateProofs.
Import NodeUtil.

Section Grouping.

Context {A V : Type}.

(** The key and the payload under which a grouping loop files an item,
    when it files it. *)
Variable entry : A -> option (string * V).
Variable key : A -> option string.
Hypothesis key_entry : forall x, key x = option_map fst (entry x).

(** One turn of a grouping loop. *)
Let file (m : StringMap (list V)) (x : A) : StringMap (list V) :=
  match entry x with
  | Some (k, v) => pushTo m k v
  | None => m
  end.

(** The payloads of the items that are filed. *)
Let payloads (items : list A) : list V :=
  flat_map (fun x => match entry x with Some (_, v) => [v] | None => [] end) items.

Lemma entriesOf_pushTo :
  forall (m : StringMap (list V)) (k k' : string) (v : V),
    entriesOf k (pushTo m k' v)
    = if String.eqb k' k then entriesOf k m ++ [v] else entriesOf k m.
Proof.
  induction m as [|[k0 vs] rest IH]; intros k k' v.
  - unfold entriesOf. cbn. destruct (String.eqb k' k); reflexivity.
  - cbn [pushTo]. destruct (String.eqb_spec k0 k') as [->|Hne].
    + unfold entriesOf. cbn. destruct (String.eqb k' k); reflexivity.
    + unfold entriesOf in *. cbn [List.find fst snd].
      destruct (String.eqb_spec k0 k) as [->|Hne'].
      * destruct (String.eqb_spec k' k) as [->|_]; [contradiction|reflexivity].
      * apply IH.
Qed.

Lemma keys_pushTo :
  forall (m : StringMap (list V)) (k : string) (v : V),
    map fst (pushTo m k v)
    = if existsb (String.eqb k) (map fst m) then map fst m else map fst m ++ [k].
Proof.
  induction m as [|[k0 vs] rest IH]; intros k v; [reflexivity|].
  cbn [pushTo map fst existsb].
  destruct (String.eqb_spec k0 k) as [->|Hne].
  - rewrite String.eqb_refl. reflexivity.
  - destruct (String.eqb_spec k k0) as [E|_]; [congruence|].
    cbn [orb map fst]. rewrite IH.
    destruct (existsb (String.eqb k) (map fst rest)); reflexivity.
Qed.

Lemma NoDup_keys_pushTo :
  forall (m : StringMap (list V)) (k : string) (v : V),
    NoDup (map fst m) -> NoDup (map fst (pushTo m k v)).
Proof.
  intros m k v H. rewrite keys_pushTo.
  destruct (existsb (String.eqb k) (map fst m)) eqn:E; [exact H|].
  apply NoDup_app; [exact H| constructor; [intros []|constructor] |].
  intros x Hx [Heq|[]]. subst x.
  assert (existsb (String.eqb k) (map fst m) = true) as C; [|congruence].
  apply existsb_exists. exists k. split; [exact Hx|apply String.eqb_refl].
Qed.

Lemma nonempty_pushTo :
  forall (m : StringMap (list V)) (k : string) (v : V),
    Forall (fun e => snd e <> []) m ->
    Forall (fun e => snd e <> []) (pushTo m k v).
Proof.
  induction m as [|[k0 vs] rest IH]; intros k v H; cbn [pushTo].
  - constructor; [discriminate|constructor].
  - inversion H as [|? ? H0 Hrest]; subst.
    destruct (String.eqb k0 k); constructor; try assumption.
    + cbn. intros E. apply app_eq_nil in E. destruct E as [_ E]. discriminate E.
    + now apply IH.
Qed.

(** What a grouping loop leaves in the map: distinct keys, no empty array,
    and under each key the payloads of the items filed under it, in order. *)
Lemma grouped :
  forall (items : list A) (m : StringMap (list V)),
    NoDup (map fst m) ->
    Forall (fun e => snd e <> []) m ->
    NoDup (map fst (fold_left file items m))
    /\ Forall (fun e => snd e <> []) (fold_left file items m)
    /\ forall k, entriesOf k (fold_left file items m)
                 = entriesOf k m ++ payloads (filedUnder key k items).
Proof.
  induction items as [|x rest IH]; intros m Hnd Hne; cbn [fold_left].
  - repeat split; try assumption. intros k. cbn. now rewrite app_nil_r.
  - assert (Hnd' : NoDup (map fst (file m x)))
      by (unfold file; destruct (entry x) as [[k v]|];
          [now apply NoDup_keys_pushTo|exact Hnd]).
    assert (Hne' : Forall (fun e => snd e <> []) (file m x))
      by (unfold file; destruct (entry x) as [[k v]|];
          [now apply nonempty_pushTo|exact Hne]).
    destruct (IH (file m x) Hnd' Hne') as (H1 & H2 & H3).
    repeat split; try assumption.
    intros k. rewrite H3. unfold file, filedUnder, payloads. cbn [filter].
    rewrite key_entry.
    destruct (entry x) as [[k' v]|] eqn:Ex; cbn [option_map fst]; [|reflexivity].
    rewrite entriesOf_pushTo.
    destruct (String.eqb k' k); [|reflexivity].
    cbn [flat_map]. rewrite Ex. cbn [app]. now rewrite <- app_assoc.
Qed.

Lemma entriesOf_In :
  forall (m : StringMap (list V)) (k : string) (vs : list V),
    NoDup (map fst m) -> In (k, vs) m -> entriesOf k m = vs.
Proof.
  induction m as [|[k0 vs0] rest IH]; intros k vs Hnd Hin; [destruct Hin|].
  cbn [map fst] in Hnd. inversion Hnd as [|? ? Hnotin Hrest]; subst.
  unfold entriesOf. cbn [List.find fst snd].
  destruct Hin as [E|Hin].
  - injection E as -> ->. now rewrite String.eqb_refl.
  - destruct (String.eqb_spec k0 k) as [->|_].
    + exfalso. apply Hnotin. change k with (fst (k, vs)). now apply in_map.
    + now apply IH.
Qed.

Lemma entriesOf_nonempty_In :
  forall (m : StringMap (list V)) (k : string),
    entriesOf k m <> [] -> In (k, entriesOf k m) m.
Proof.
  intros m k H. unfold entriesOf in *.
  destruct (List.find (fun e => String.eqb (fst e) k) m) as [[k0 vs]|] eqn:E;
    [|contradiction].
  apply find_some in E. destruct E as [Hin Hk]. cbn in Hk.
  apply String.eqb_eq in Hk. subst k0. exact Hin.
Qed.

Lemma filedUnder_count :
  forall (items : list A) (k : string),
    List.length (filedUnder key k items) = count_occ string_dec (keysOf key items) k.
Proof.
  induction items as [|x rest IH]; intros k; [reflexivity|].
  unfold filedUnder, keysOf in *. cbn [filter flat_map].
  destruct (key x) as [k'|]; cbn [app]; [|apply IH].
  cbn [count_occ]. destruct (String.eqb_spec k' k) as [->|Hne].
  - destruct (string_dec k k) as [_|C]; [|contradiction]. cbn. now rewrite IH.
  - destruct (string_dec k' k) as [C|_]; [contradiction|]. apply IH.
Qed.

(** Every item filed under a key gives one payload. *)
Lemma payloads_length :
  forall (items : list A) (k : string),
    List.length (payloads (filedUnder key k items)) = List.length (filedUnder key k items).
Proof.
  induction items as [|x rest IH]; intros k; [reflexivity|].
  unfold filedUnder, payloads in *. cbn [filter].
  rewrite key_entry. destruct (entry x) as [[k' v]|] eqn:Ex; cbn [option_map fst]; [|apply IH].
  destruct (String.eqb k' k); [|apply IH].
  cbn [flat_map]. rewrite Ex. cbn. now rewrite IH.
Qed.

(** The entries a grouping loop keeps as duplicates: distinct keys, and
    under each kept key at least two payloads, those of all the items filed
    under it. *)
Lemma kept_duplicates :
  forall (items : list A),
    NoDup (map fst (keepDuplicates (fold_left file items [])))
    /\ forall (k : string) (vs : list V),
         In (k, vs) (keepDuplicates (fold_left file items [])) ->
         vs = payloads (filedUnder key k items) /\ 2 <= List.length vs.
Proof.
  intros items.
  destruct (grouped items [] (NoDup_nil _) (Forall_nil _)) as (Hnd & Hne & Hent).
  split.
  - unfold keepDuplicates. revert Hnd. generalize (fold_left file items []).
    intros m. induction m as [|[k vs] rest IH]; intros Hnd; [constructor|].
    cbn [map fst] in Hnd. inversion Hnd as [|? ? Hnotin Hrest]; subst.
    cbn [filter snd]. destruct (negb _); [|now apply IH].
    cbn [map fst]. constructor; [|now apply IH].
    intros Hin. apply Hnotin. apply in_map_iff in Hin.
    destruct Hin as [e [He Hin]]. apply filter_In in Hin. destruct Hin as [Hin _].
    rewrite <- He. now apply in_map.
  - intros k vs Hin. unfold keepDuplicates in Hin.
    apply filter_In in Hin. destruct Hin as [Hin Hlen]. cbn [snd] in Hlen.
    pose proof (entriesOf_In _ k vs Hnd Hin) as E. rewrite Hent in E. cbn in E.
    split; [now symmetry|].
    rewrite Forall_forall in Hne. specialize (Hne (k, vs) Hin). cbn in Hne.
    apply negb_true_iff, Nat.eqb_neq in Hlen.
    destruct vs as [|v1 [|v2 vs']]; cbn in *; try contradiction; lia.
Qed.

(** A grouping loop keeps no duplicate exactly when no key occurs twice. *)
Lemma no_duplicates_iff :
  forall (items : list A),
    keepDuplicates (fold_left file items []) = [] <-> NoDup (keysOf key items).
Proof.
  intros items.
  destruct (grouped items [] (NoDup_nil _) (Forall_nil _)) as (Hnd & Hne & Hent).
  rewrite Forall_forall in Hne. split.
  - intros Hnone. apply (NoDup_count_occ string_dec). intros k.
    rewrite <- filedUnder_count, <- payloads_length.
    destruct (payloads (filedUnder key k items)) as [|x0 xs] eqn:Ef; [cbn; lia|].
    assert (Hk : entriesOf k (fold_left file items []) <> [])
      by (rewrite Hent, Ef; discriminate).
    pose proof (entriesOf_nonempty_In _ k Hk) as Hin.
    assert (Hkeep : negb (Nat.eqb (List.length (entriesOf k (fold_left file items []))) 1)
                    = false).
    { destruct (negb _) eqn:Eb; [|reflexivity].
      assert (In (k, entriesOf k (fold_left file items []))
                 (keepDuplicates (fold_left file items []))) as C
        by (apply filter_In; split; [exact Hin|exact Eb]).
      rewrite Hnone in C. destruct C. }
    apply negb_false_iff, Nat.eqb_eq in Hkeep.
    rewrite Hent, Ef in Hkeep. cbn [entriesOf List.find app] in Hkeep.
    rewrite Hkeep. lia.
  - intros Hdistinct.
    destruct (keepDuplicates (fold_left file items [])) as [|[k vs] rest] eqn:Ef;
      [reflexivity|].
    exfalso.
    assert (Hin : In (k, vs) (keepDuplicates (fold_left file items [])))
      by (rewrite Ef; now left).
    destruct (proj2 (kept_duplicates items) k vs Hin) as [-> Hlen].
    rewrite payloads_length, filedUnder_count in Hlen.
    apply (NoDup_count_occ string_dec) with (x := k) in Hdistinct. lia.
Qed.

End Grouping.

Lemma fold_left_pointwise :
  forall (A B : Type) (f g : A -> B -> A),
    (forall a b, f a b = g a b) ->
    forall (l : list B) (a : A), fold_left f l a = fold_left g l a.
Proof.
  intros A B f g H. induction l as [|b rest IH]; intros a; cbn [fold_left]; [reflexivity|].
  rewrite H. apply IH.
Qed.

Lemma pushAlias_pushTo :
  forall (m : StringMap (list Alias)) (name : string) (alias : Alias),
    pushAlias m name alias = pushTo m name alias.
Proof.
  induction m as [|[k vs] rest IH]; intros name alias; cbn; [reflexivity|].
  now rewrite IH.
Qed.

(** *** getDuplicateAliases *)

(** How [getDuplicateAliases] files an alias. *)
Lemma alias_filing :
  forall (aliases : list Alias) (m : StringMap (list Alias)),
    fold_left
      (fun m alias =>
         match getName alias with
         | Some name => pushAlias m name alias
         | None => m
         end) aliases m
    = fold_left
        (fun m alias =>
           match option_map (fun name => (name, alias)) (getName alias) with
           | Some (k, v) => pushTo m k v
           | None => m
           end) aliases m.
Proof.
  intros aliases m. apply fold_left_pointwise. intros a b.
  destruct (getName b); cbn; [apply pushAlias_pushTo|reflexivity].
Qed.

Lemma alias_key :
  forall (alias : Alias),
    getName alias = option_map fst (option_map (fun name => (name, alias)) (getName alias)).
Proof. intros alias. destruct (getName alias); reflexivity. Qed.

Lemma alias_payloads :
  forall (name : string) (aliases : list Alias),
    flat_map
      (fun alias =>
         match option_map (fun name => (name, alias)) (getName alias) with
         | Some (_, v) => [v]
         | None => []
         end) (filedUnder getName name aliases)
    = filter (aliasIsNamed name) aliases.
Proof.
  intros name aliases. unfold filedUnder, aliasIsNamed.
  induction aliases as [|a rest IH]; [reflexivity|].
  cbn [filter]. destruct (getName a) as [n|] eqn:E; [|exact IH].
  destruct (String.eqb n name); [|exact IH].
  cbn [flat_map]. rewrite E. cbn. now rewrite IH.
Qed.

(** What [getDuplicateAliases] answers, by the duplicates its loop keeps. *)
Lemma getDuplicateAliases_kept :
  forall (aliases : list Alias),
    getDuplicateAliases aliases
    = match keepDuplicates
              (fold_left
                 (fun m alias =>
                    match option_map (fun name => (name, alias)) (getName alias) with
                    | Some (k, v) => pushTo m k v
                    | None => m
                    end) aliases [])
      with
      | [] => None
      | e :: rest => Some (DuplicateAliases (e :: rest))
      end.
Proof.
  intros aliases. unfold getDuplicateAliases. rewrite alias_filing.
  unfold keepDuplicates. destruct (filter _ _); reflexivity.
Qed.

(** [getDuplicateAliases] answers [undefined] exactly when no two aliases
    carry the same name; aliases without a name do not count. *)
Theorem getDuplicateAliases_none_iff_distinct :
  forall (aliases : list Alias),
    getDuplicateAliases aliases = None <-> NoDup (keysOf getName aliases).
Proof.
  intros aliases.
  pose proof (no_duplicates_iff _ getName alias_key aliases) as Hiff.
  cbv zeta in Hiff. rewrite <- Hiff, getDuplicateAliases_kept.
  destruct (keepDuplicates _) as [|e rest]; split; intros H;
    try reflexivity; discriminate H.
Qed.

(** When [getDuplicateAliases] reports duplicates, the map it reports has
    distinct names, is not empty, and holds under each name all the aliases
    of that name, in order, of which there are at least two. *)
Theorem getDuplicateAliases_reports_every_alias :
  forall (aliases : list Alias) (m : StringMap (list Alias)),
    getDuplicateAliases aliases = Some (DuplicateAliases m) ->
    m <> []
    /\ NoDup (map fst m)
    /\ forall (name : string) (dupes : list Alias),
         In (name, dupes) m ->
         dupes = filter (aliasIsNamed name) aliases /\ 2 <= List.length dupes.
Proof.
  intros aliases m H. rewrite getDuplicateAliases_kept in H.
  pose proof (kept_duplicates _ getName alias_key aliases) as [Hnd Hin].
  cbv zeta in Hnd, Hin.
  destruct (keepDuplicates _) as [|e rest] eqn:E; [discriminate H|].
  injection H as <-.
  split; [discriminate|]. split; [exact Hnd|].
  intros name dupes Hd. destruct (Hin name dupes Hd) as [-> Hlen].
  split; [|exact Hlen]. apply alias_payloads.
Qed.

(** The aliases [x y x]: the two [x] are reported together. *)
Lemma getDuplicateAliases_reports_every_alias_witness :
  filter (aliasIsNamed "x")
    [NodeUtilExamples.aliasX1; NodeUtilExamples.aliasY; NodeUtilExamples.aliasX2]
  = [NodeUtilExamples.aliasX1; NodeUtilExamples.aliasX2]
  /\ [("x", [NodeUtilExamples.aliasX1; NodeUtilExamples.aliasX2])] <> [].
Proof.
  pose proof (getDuplicateAliases_reports_every_alias
                [NodeUtilExamples.aliasX1; NodeUtilExamples.aliasY; NodeUtilExamples.aliasX2]
                [("x", [NodeUtilExamples.aliasX1; NodeUtilExamples.aliasX2])] eq_refl)
    as [Hne [_ Hall]].
  split; [|exact Hne].
  symmetry. exact (proj1 (Hall "x" _ (or_introl eq_refl))).
Defined.

(** *** getDuplicateDocs *)

Lemma doc_filing :
  forall (docs : list Documentation) (m : StringMap (list Language)),
    fold_left
      (fun m doc =>
         match doc_getLanguage doc, lang doc with
         | Some language, Some l => pushTo m language l
         | _, _ => m
         end) docs m
    = fold_left
        (fun m doc =>
           match (match doc_getLanguage doc, lang doc with
                  | Some language, Some l => Some (language, l)
                  | _, _ => None
                  end) with
           | Some (k, v) => pushTo m k v
           | None => m
           end) docs m.
Proof.
  intros docs m. apply fold_left_pointwise. intros a b.
  destruct (doc_getLanguage b), (lang b); reflexivity.
Qed.

Lemma doc_key :
  forall (doc : Documentation),
    filedLanguage doc
    = option_map fst (match doc_getLanguage doc, lang doc with
                      | Some language, Some l => Some (language, l)
                      | _, _ => None
                      end).
Proof.
  intros doc. unfold filedLanguage. destruct (doc_getLanguage doc), (lang doc); reflexivity.
Qed.

(** [getDuplicateDocs] answers [undefined] exactly when no two tagged
    documentations are in the same language; a documentation without a
    language tag does not count.  What it reports carries the documentations
    it was given. *)
Theorem getDuplicateDocs_none_iff_distinct :
  forall (docs : list Documentation),
    (getDuplicateDocs docs = None <-> NoDup (keysOf filedLanguage docs))
    /\ (forall d, getDuplicateDocs docs = Some d ->
          duplicate_docs d = docs /\ duplicate_languages d <> []).
Proof.
  intros docs.
  pose proof (no_duplicates_iff _ filedLanguage doc_key docs) as Hiff.
  cbv zeta in Hiff. rewrite <- Hiff.
  unfold getDuplicateDocs. rewrite doc_filing.
  destruct (keepDuplicates _) as [|e rest]; cbn [List.length Nat.ltb Nat.leb]; split.
  - split; reflexivity.
  - intros d H. discriminate H.
  - split; intros H; discriminate H.
  - intros d H. injection H as <-. split; [reflexivity|discriminate].
Qed.

(** *** typeVarsAreUnique *)




End DuplicateProofs.

(** ** nodes/util: the conflicts of a list of inputs *)
Module InputConflictProofs.
Import NodeUtil.

Lemma find_first_variable_length :
  forall (pre post : list (Bind + Unparsable)) (rest : Bind),
    Forall fixedLength pre ->
    isVariableLength rest = true ->
    List.find (fun i => match i with inl b => isVariableLength b | inr _ => false end)
      (pre ++ inl rest :: post)
    = Some (inl rest).
Proof.
  induction pre as [|i pre' IH]; intros post rest Hpre Hrest; cbn.
  - now rewrite Hrest.
  - inversion Hpre as [|? ? Hi Hpre']; subst.
    destruct i as [b|u]; cbn in Hi; [rewrite Hi|]; now apply IH.
Qed.

Lemma find_no_variable_length :
  forall (inputs : list (Bind + Unparsable)),
    Forall fixedLength inputs ->
    List.find (fun i => match i with inl b => isVariableLength b | inr _ => false end) inputs
    = None.
Proof.
  induction inputs as [|i rest IH]; intros H; [reflexivity|].
  inversion H as [|? ? Hi Hrest]; subst. cbn.
  destruct i as [b|u]; cbn in Hi; [rewrite Hi|]; now apply IH.
Qed.

Lemma indexOf_first :
  forall (pre post : list (Bind + Unparsable)) (rest : Bind),
    ~ In (bind_id rest) (map bind_id (bindsOf pre)) ->
    indexOf (pre ++ inl rest :: post) rest = Some (List.length pre).
Proof.
  induction pre as [|i pre' IH]; intros post rest Hnotin; cbn.
  - now rewrite Nat.eqb_refl.
  - destruct i as [b|u]; cbn in Hnotin.
    + destruct (Nat.eqb_spec (bind_id b) (bind_id rest)) as [E|_].
      * exfalso. apply Hnotin. now left.
      * rewrite IH; [reflexivity|]. intros H. apply Hnotin. now right.
    + now rewrite IH.
Qed.

(** [restIsNotLast] looks at the first variable-length bind only: it answers
    a conflict on that bind when any input follows it, and [undefined] when
    it is the last input or when no bind is variable-length.  The inputs
    before it are other objects than it. *)
Theorem restIsNotLast_first_variable_length :
  forall (inputs : list (Bind + Unparsable)),
    (forall pre rest post,
        inputs = pre ++ inl rest :: post ->
        Forall fixedLength pre ->
        isVariableLength rest = true ->
        ~ In (bind_id rest) (map bind_id (bindsOf pre)) ->
        restIsNotLast inputs
        = match post with
          | [] => None
          | _ :: _ => Some (VariableLengthArgumentMustBeLast rest)
          end)
    /\ (Forall fixedLength inputs -> restIsNotLast inputs = None).
Proof.
  intros inputs. split.
  - intros pre rest post -> Hpre Hrest Hid. unfold restIsNotLast.
    rewrite (find_first_variable_length pre post rest Hpre Hrest).
    rewrite (indexOf_first pre post rest Hid).
    rewrite length_app. cbn [List.length].
    destruct post as [|i post'].
    + cbn [List.length]. replace (List.length pre + 1) with (S (List.length pre)) by lia.
      now rewrite Nat.eqb_refl.
    + cbn [List.length].
      destruct (Nat.eqb_spec (S (List.length pre))
                  (List.length pre + S (S (List.length post')))) as [E|_];
        [lia|reflexivity].
  - intros H. unfold restIsNotLast. now rewrite (find_no_variable_length inputs H).
Qed.

(** [restIsNotLast] on [a  rest  b: 1], where an input follows the
    variable-length one, and on inputs without one. *)
Lemma restIsNotLast_first_variable_length_witness :
  restIsNotLast NodeUtilExamples.inputsRestInside
  = Some (VariableLengthArgumentMustBeLast NodeUtilExamples.restBind)
  /\ restIsNotLast NodeUtilExamples.inputsAB = None.
Proof.
  split.
  - apply (proj1 (restIsNotLast_first_variable_length NodeUtilExamples.inputsRestInside)
             [inl NodeUtilExamples.requiredA] NodeUtilExamples.restBind
             [inl NodeUtilExamples.optionalB]).
    + reflexivity.
    + repeat constructor.
    + reflexivity.
    + cbn. intros [H|[]]. discriminate H.
  - apply (proj2 (restIsNotLast_first_variable_length NodeUtilExamples.inputsAB)).
    repeat constructor.
Defined.

(** A list splits at its first variable-length bind, when it has one. *)
Lemma first_variable_length :
  forall (binds : list Bind),
    Forall (fun b => isVariableLength b = false) binds
    \/ exists pre rest post,
         binds = pre ++ rest :: post
         /\ Forall (fun b => isVariableLength b = false) pre
         /\ isVariableLength rest = true.
Proof.
  induction binds as [|b rest IH]; [left; constructor|].
  destruct (isVariableLength b) eqn:E.
  - right. exists [], b, rest. repeat split; [constructor|exact E].
  - destruct IH as [H|(pre & r & post & -> & Hpre & Hr)].
    + left. now constructor.
    + right. exists (b :: pre), r, post. repeat split; [now constructor|exact Hr].
Qed.

(** Required binds followed by optional binds are in order. *)
Lemma requiredBindAfterOptional_in_order :
  forall (required optionals : list Bind),
    Forall (fun b => value b = None) required ->
    Forall (fun b => value b <> None) optionals ->
    requiredBindAfterOptional (map inl (required ++ optionals)) = None.
Proof.
  intros required optionals Hreq Hopts. unfold requiredBindAfterOptional.
  rewrite NodeUtilProofs.bindsOf_map_inl, length_map, Nat.eqb_refl.
  rewrite fold_left_app, (NodeUtilProofs.scan_required_prefix required Hreq).
  destruct optionals as [|o optionals']; [reflexivity|].
  inversion Hopts as [|? ? Ho Hos]; subst.
  cbn [fold_left]. rewrite (NodeUtilProofs.scan_optional o false None Ho).
  rewrite (NodeUtilProofs.scan_optionals optionals' None Hos). reflexivity.
Qed.

(** Inputs that are all binds, distinct objects with distinct names, the
    required ones before the optional ones and no variable-length one
    except possibly the last, get no conflict from
    [getEvaluationInputConflicts]. *)
Theorem getEvaluationInputConflicts_well_formed :
  forall (required optionals : list Bind),
    let binds := required ++ optionals in
    Forall (fun b => value b = None) required ->
    Forall (fun b => value b <> None) optionals ->
    NoDup (map bind_id binds) ->
    NoDup (keysOf getName (flat_map aliases binds)) ->
    (forall pre rest post,
        binds = pre ++ rest :: post -> isVariableLength rest = true -> post = []) ->
    getEvaluationInputConflicts (map inl binds) = [].
Proof.
  intros required optionals binds Hreq Hopts Hids Hnames Hlast.
  unfold getEvaluationInputConflicts.
  assert (Hflat : flat_map (fun i : Bind + Unparsable =>
                              match i with inl b => aliases b | inr _ => [] end)
                    (map inl binds)
                  = flat_map aliases binds).
  { clear. induction binds as [|b rest IH]; [reflexivity|]. cbn. now rewrite IH. }
  rewrite Hflat.
  assert (Hdup : getDuplicateAliases (flat_map aliases binds) = None).
  { rewrite DuplicateProofs.getDuplicateAliases_kept.
    pose proof (proj2 (DuplicateProofs.no_duplicates_iff _ getName
                         DuplicateProofs.alias_key _) Hnames) as K.
    cbv zeta in K. now rewrite K. }
  rewrite Hdup.
  unfold binds at 1.
  rewrite (requiredBindAfterOptional_in_order required optionals Hreq Hopts).
  cbn [pushIf].
  assert (Hrest : restIsNotLast (map inl binds) = None).
  { destruct (first_variable_length binds) as [H|(pre & r & post & E & Hpre & Hr)].
    - unfold restIsNotLast. rewrite find_no_variable_length; [reflexivity|].
      clear -H. induction H; cbn; constructor; assumption.
    - pose proof (Hlast pre r post E Hr) as ->.
      unfold restIsNotLast. rewrite E, map_app. cbn [map].
      rewrite find_first_variable_length;
        [|clear -Hpre; induction Hpre; cbn; constructor; assumption|exact Hr].
      rewrite indexOf_first.
      + rewrite length_app, !length_map. cbn [List.length].
        replace (List.length pre + 1) with (S (List.length pre)) by lia.
        now rewrite Nat.eqb_refl.
      + rewrite NodeUtilProofs.bindsOf_map_inl.
        rewrite E, map_app in Hids. cbn [map] in Hids.
        apply NoDup_remove_2 in Hids. rewrite app_nil_r in Hids. exact Hids. }
  rewrite Hrest. reflexivity.
Qed.

(** The inputs [a  b: 1] get no conflict. *)
Lemma getEvaluationInputConflicts_well_formed_witness :
  getEvaluationInputConflicts NodeUtilExamples.inputsAB = [].
Proof.
  apply (getEvaluationInputConflicts_well_formed
           [NodeUtilExamples.requiredA] [NodeUtilExamples.optionalB]).
  - repeat constructor.
  - repeat constructor. cbn. discriminate.
  - repeat constructor; cbn; intuition discriminate.
  - repeat constructor; cbn; intuition discriminate.
  - intros pre rest post E Hr.
    assert (Hin : In rest [NodeUtilExamples.requiredA; NodeUtilExamples.optionalB])
      by (change (In rest ([NodeUtilExamples.requiredA] ++ [NodeUtilExamples.optionalB]));
          rewrite E; apply in_elt).
    destruct Hin as [<-|[<-|[]]]; discriminate Hr.
Defined.

End InputConflictProofs.

(** ** nodes/util: aliasesToTranslations *)
Module TranslationProofs.
Import NodeUtil.

Lemma ownProperty_setOwn :
  forall (object : StringMap string) (k v l : string),
    ownProperty (setOwn object k v) l
    = if String.eqb k l then Some v else ownProperty object l.
Proof.
  induction object as [|[k0 w] rest IH]; intros k v l.
  - cbn. reflexivity.
  - cbn [setOwn]. destruct (String.eqb_spec k0 k) as [->|Hne]; cbn [ownProperty].
    + destruct (String.eqb k l); reflexivity.
    + rewrite IH. destruct (String.eqb_spec k0 l) as [->|_]; [|reflexivity].
      destruct (String.eqb_spec k l) as [->|_]; [contradiction|reflexivity].
Qed.

(** An assignment reaches the key it names, unless that key is
    [__proto__]. *)
Lemma ownProperty_setKey :
  forall (object : StringMap string) (k v l : string),
    ownProperty (setKey object k v) l
    = if String.eqb k "__proto__" then ownProperty object l
      else if String.eqb k l then Some v else ownProperty object l.
Proof.
  intros object k v l. unfold setKey.
  destruct (String.eqb k "__proto__"); [reflexivity|]. apply ownProperty_setOwn.
Qed.

(** After the overriding loop, a language other than [__proto__] holds the
    name of the last alias tagged with it, and what it held before when no
    alias is tagged with it. *)
Lemma ownProperty_overridden :
  forall (aliases : list Alias) (translations : StringMap string) (l : string),
    l <> "__proto__" ->
    ownProperty (fold_left overrideTranslation aliases translations) l
    = match lastTagged l aliases with
      | Some name => Some name
      | None => ownProperty translations l
      end.
Proof.
  intros als. induction als as [|a rest IH]; intros translations l Hl; [reflexivity|].
  cbn [fold_left lastTagged]. rewrite (IH _ _ Hl).
  destruct (lastTagged l rest); [reflexivity|].
  unfold overrideTranslation.
  destruct (getLanguage a) as [l'|]; [|reflexivity].
  destruct (getName a) as [name|]; [|reflexivity].
  rewrite ownProperty_setKey.
  destruct (String.eqb_spec l' "__proto__") as [->|_].
  - destruct (String.eqb_spec "__proto__" l) as [E|_]; [|reflexivity].
    exfalso. apply Hl. symmetry. exact E.
  - destruct (String.eqb l' l); reflexivity.
Qed.

(** The overriding loop never stores under [__proto__]. *)
Lemma proto_not_stored :
  forall (aliases : list Alias) (translations : StringMap string),
    ownProperty (fold_left overrideTranslation aliases translations) "__proto__"
    = ownProperty translations "__proto__".
Proof.
  intros als. induction als as [|a rest IH]; intros translations; [reflexivity|].
  cbn [fold_left]. rewrite IH. unfold overrideTranslation.
  destruct (getLanguage a) as [l'|]; [|reflexivity].
  destruct (getName a) as [name|]; [|reflexivity].
  rewrite ownProperty_setKey.
  destruct (String.eqb_spec l' "__proto__") as [->|Hne]; [reflexivity|].
  destruct (String.eqb_spec l' "__proto__") as [E|_]; [contradiction|reflexivity].
Qed.

Lemma lastTagged_none :
  forall (l : string) (aliases : list Alias),
    (forall a, In a aliases -> getLanguage a = Some l -> getName a = None) ->
    lastTagged l aliases = None.
Proof.
  intros l als. induction als as [|a rest IH]; intros H; [reflexivity|].
  cbn [lastTagged]. rewrite IH by (intros x Hx; apply H; right; exact Hx).
  destruct (getLanguage a) as [l'|] eqn:El; [|reflexivity].
  destruct (getName a) as [name|] eqn:En; [|reflexivity].
  destruct (String.eqb_spec l' l) as [->|_]; [|reflexivity].
  specialize (H a (or_introl eq_refl) El). congruence.
Qed.

Lemma lastTagged_last :
  forall (l name : string) (before after : list Alias) (alias : Alias),
    getLanguage alias = Some l ->
    getName alias = Some name ->
    Forall (fun a => getLanguage a = Some l -> getName a = None) after ->
    lastTagged l (before ++ alias :: after) = Some name.
Proof.
  intros l name before after alias Hl Hn Hafter.
  induction before as [|b before' IH]; cbn [app lastTagged].
  - rewrite lastTagged_none.
    + rewrite Hl, Hn, String.eqb_refl. reflexivity.
    + intros a Ha. exact (proj1 (Forall_forall _ _) Hafter a Ha).
  - rewrite IH. reflexivity.
Qed.

Lemma isUndefined_true :
  forall {A : Type} (o : option A), isUndefined o = true <-> o = None.
Proof.
  intros A [a|]; cbn; split; intros H; try reflexivity; discriminate H.
Qed.

Lemma isUndefined_false :
  forall {A : Type} (o : option A), isUndefined o = false <-> o <> None.
Proof.
  intros A [a|]; cbn; split; intros H; try reflexivity; try discriminate H;
    try (intros H'; discriminate H'). exfalso. exact (H eq_refl).
Qed.

(** The default is the name of the first alias without a language tag,
    when that alias has a name. *)
Lemma defaultTranslation_untagged :
  forall (aliases before after : list Alias) (alias : Alias) (name fallback : string),
    aliases = before ++ alias :: after ->
    Forall (fun a => getLanguage a <> None) before ->
    getLanguage alias = None ->
    getName alias = Some name ->
    defaultTranslation aliases fallback = Returned name.
Proof.
  intros als before after alias name fallback Hals Hbefore Hl Hn.
  unfold defaultTranslation.
  assert (Hfind : List.find (fun a => isUndefined (getLanguage a)) als = Some alias).
  { apply NodeUtilProofs.find_first. exists before, after. repeat split; [exact Hals| |].
    - apply isUndefined_true. exact Hl.
    - apply Forall_impl with (2 := Hbefore). intros a. apply isUndefined_false. }
  rewrite Hfind, Hn. reflexivity.
Qed.

(** Otherwise the default is the name of the first alias, and the fallback
    when it has none. *)
Lemma defaultTranslation_first :
  forall (first : Alias) (rest : list Alias) (fallback : string),
    (forall before alias after,
        first :: rest = before ++ alias :: after ->
        Forall (fun a => getLanguage a <> None) before ->
        getLanguage alias = None -> getName alias = None) ->
    defaultTranslation (first :: rest) fallback
    = Returned (match getName first with Some name => name | None => fallback end).
Proof.
  intros first rest fallback H. unfold defaultTranslation.
  destruct (List.find (fun a => isUndefined (getLanguage a)) (first :: rest)) as [a|] eqn:E;
    [|reflexivity].
  apply NodeUtilProofs.find_first in E. destruct E as (before & after & Hals & Ha & Hbefore).
  rewrite (H before a after Hals).
  - reflexivity.
  - apply Forall_impl with (2 := Hbefore). intros x. apply isUndefined_false.
  - apply isUndefined_true. exact Ha.
Qed.

Lemma defaultTranslation_throws :
  forall (aliases : list Alias) (fallback : string),
    defaultTranslation aliases fallback = TypeError <-> aliases = [].
Proof.
  intros aliases fallback. unfold defaultTranslation. split.
  - destruct aliases as [|a rest]; [reflexivity|].
    destruct (match List.find _ (a :: rest) with Some a0 => getName a0 | None => None end);
      intros H; discriminate H.
  - intros ->. reflexivity.
Qed.

(** [aliasesToTranslations] throws exactly on the empty list of aliases:
    without an alias, [aliases[0].getName()] reads a property of
    [undefined]. *)
Theorem aliasesToTranslations_throws_on_empty :
  forall (ANONYMOUS_SYMBOL : string) (aliases : list Alias),
    aliasesToTranslations ANONYMOUS_SYMBOL aliases = TypeError <-> aliases = [].
Proof.
  intros sym aliases. unfold aliasesToTranslations. split.
  - intros H. destruct aliases as [|a rest]; [reflexivity|]. exfalso.
    destruct (defaultTranslation (a :: rest) "anonymous") as [eng|] eqn:E1.
    + destruct (defaultTranslation (a :: rest) sym) as [emoji|] eqn:E2; [discriminate H|].
      apply defaultTranslation_throws in E2. discriminate E2.
    + apply defaultTranslation_throws in E1. discriminate E1.
  - intros ->. reflexivity.
Qed.

(** What the object holds before the overriding loop. *)
Lemma initial_translations :
  forall (eng emoji l : string),
    ownProperty [("eng", eng); ("😀", emoji)] l
    = if String.eqb "eng" l then Some eng
      else if String.eqb "😀" l then Some emoji else None.
Proof.
  intros eng emoji l. reflexivity.
Qed.

(** In the translations [aliasesToTranslations] returns:
    - a language, other than [__proto__], that some alias with a name is
      tagged with holds the name of the last such alias;
    - each of the keys [eng] and the emoji key, when no alias with a name
      is tagged with it, holds its default: the name of the first alias
      without a language tag; when there is no such alias or it has no
      name, the name of the first alias; when that one has no name, the
      fallback, [anonymous] for [eng] and the anonymous symbol for the
      emoji key;
    - no other language is an own property of the object, and [__proto__]
      never is. *)
Theorem aliasesToTranslations_last_alias_wins :
  forall (ANONYMOUS_SYMBOL : string) (aliases : list Alias)
         (translations : StringMap string),
    aliasesToTranslations ANONYMOUS_SYMBOL aliases = Returned translations ->
    (forall before alias after l name,
        aliases = before ++ alias :: after ->
        getLanguage alias = Some l ->
        getName alias = Some name ->
        Forall (fun a => getLanguage a = Some l -> getName a = None) after ->
        l <> "__proto__" ->
        ownProperty translations l = Some name)
    /\ (forall key fallback,
          (key = "eng" /\ fallback = "anonymous")
          \/ (key = "😀" /\ fallback = ANONYMOUS_SYMBOL) ->
          (forall a, In a aliases -> getLanguage a = Some key -> getName a = None) ->
          (forall before alias after name,
              aliases = before ++ alias :: after ->
              Forall (fun a => getLanguage a <> None) before ->
              getLanguage alias = None ->
              getName alias = Some name ->
              ownProperty translations key = Some name)
          /\ (forall first rest,
                aliases = first :: rest ->
                (forall before alias after,
                    aliases = before ++ alias :: after ->
                    Forall (fun a => getLanguage a <> None) before ->
                    getLanguage alias = None -> getName alias = None) ->
                ownProperty translations key
                = Some (match getName first with
                        | Some name => name
                        | None => fallback
                        end)))
    /\ (forall l,
          l <> "eng" -> l <> "😀" ->
          l = "__proto__"
          \/ (forall a, In a aliases -> getLanguage a = Some l -> getName a = None) ->
          ownProperty translations l = None).
Proof.
  intros sym aliases translations H. unfold aliasesToTranslations in H.
  destruct (defaultTranslation aliases "anonymous") as [eng|] eqn:Eeng; [|discriminate H].
  destruct (defaultTranslation aliases sym) as [emoji|] eqn:Eemoji; [|discriminate H].
  injection H as <-. split; [|split].
  - intros before alias after l name -> Hl Hn Hafter Hproto.
    rewrite (ownProperty_overridden _ _ _ Hproto).
    rewrite (lastTagged_last l name before after alias Hl Hn Hafter). reflexivity.
  - intros key fallback Hkey Hnone.
    assert (Hheld : ownProperty
                      (fold_left overrideTranslation aliases [("eng", eng); ("😀", emoji)]) key
                    = returned (defaultTranslation aliases fallback)).
    { rewrite ownProperty_overridden
        by (destruct Hkey as [[-> _]|[-> _]]; intros E; discriminate E).
      rewrite (lastTagged_none key aliases Hnone), initial_translations.
      destruct Hkey as [[-> ->]|[-> ->]]; cbn [String.eqb].
      - rewrite Eeng. reflexivity.
      - rewrite Eemoji. reflexivity. }
    rewrite Hheld. split.
    + intros before alias after name Hals Hbefore Hl Hn.
      rewrite (defaultTranslation_untagged aliases before after alias name fallback
                 Hals Hbefore Hl Hn). reflexivity.
    + intros first rest -> Hfirst.
      rewrite (defaultTranslation_first first rest fallback Hfirst). reflexivity.
  - intros l Heng Hemoji [->|Hnone].
    + rewrite proto_not_stored. reflexivity.
    + destruct (String.eqb_spec l "__proto__") as [->|Hproto];
        [rewrite proto_not_stored; reflexivity|].
      rewrite (ownProperty_overridden _ _ _ Hproto), (lastTagged_none l aliases Hnone).
      rewrite initial_translations.
      destruct (String.eqb_spec "eng" l) as [E|_]; [exfalso; apply Heng; now symmetry|].
      destruct (String.eqb_spec "😀" l) as [E|_]; [exfalso; apply Hemoji; now symmetry|].
      reflexivity.
Qed.

(** The translations of [hi/eng  hola/spa  bonjour/fra  ola/spa]: [spa]
    holds the later of its two names.  The translations of [x/spa  y]:
    [eng] holds [y], the name of the first alias without a tag. *)
Lemma aliasesToTranslations_last_alias_wins_witness :
  ownProperty [("eng", "hi"); ("😀", "hi"); ("spa", "ola"); ("fra", "bonjour")] "spa"
  = Some "ola"
  /\ ownProperty [("eng", "y"); ("😀", "y"); ("spa", "x")] "eng" = Some "y".
Proof.
  split.
  - apply (proj1 (aliasesToTranslations_last_alias_wins "_" NodeUtilExamples.greetings
                    [("eng", "hi"); ("😀", "hi"); ("spa", "ola"); ("fra", "bonjour")]
                    eq_refl)
             [ NodeUtilExamples.taggedAlias 421 "hi" "eng";
               NodeUtilExamples.taggedAlias 422 "hola" "spa";
               NodeUtilExamples.taggedAlias 423 "bonjour" "fra" ]
             (NodeUtilExamples.taggedAlias 424 "ola" "spa") []).
    + reflexivity.
    + reflexivity.
    + reflexivity.
    + constructor.
    + intros E. discriminate E.
  - apply (proj1 (proj1 (proj2 (aliasesToTranslations_last_alias_wins "_"
                                  NodeUtilExamples.taggedThenPlain
                                  [("eng", "y"); ("😀", "y"); ("spa", "x")]
                                  eq_refl))
                    "eng" "anonymous" (or_introl (conj eq_refl eq_refl))
                    ltac:(intros a [<-|[<-|[]]] E; discriminate E))
             [NodeUtilExamples.taggedAlias 431 "x" "spa"] (NodeUtilExamples.aliasOf 432 "y") []).
    + reflexivity.
    + constructor; [intros E; discriminate E|constructor].
    + reflexivity.
    + reflexivity.
Defined.

End TranslationProofs.

(** ** nodes/util: rows without conflicts *)
Module ConflictFreeRowProofs.
Import NodeUtil.

Section ConflictFree.

Variable M : Methods.
Variable tableType : TableType.
Variable row : Row.
Variable context : Context.

Lemma checkCellType_nil :
  forall (conflicts : list Conflict) (column : ColumnType) (cell : Cell),
    checkCellType M tableType context conflicts column cell = []
    <-> conflicts = []
        /\ accepts M (getValueType M column context) (getType M cell context) context = true.
Proof.
  intros conflicts column cell. unfold checkCellType.
  destruct (accepts M _ _ context); cbn [negb]; split.
  - intros ->. now split.
  - now intros [-> _].
  - intros H. apply app_eq_nil in H. destruct H as [_ H]. discriminate H.
  - intros [_ H]. discriminate H.
Qed.

(** A named cell that raises no conflict: its bind names a column whose
    value type accepts the cell's type. *)
Let accepted (cell : Cell) : Prop :=
  forall b, cell_value cell = inl b ->
    exists column,
      getColumnNamed M tableType (hd_error (getNames M b)) = Some column
      /\ accepts M (getValueType M column context) (getType M cell context) context = true.

Lemma checkBindCell_nil :
  forall (cell : Cell) (conflicts : list Conflict) (matched : list ColumnType),
    fst (checkBindCell M tableType context (conflicts, matched) cell) = []
    <-> conflicts = [] /\ accepted cell.
Proof.
  intros cell conflicts matched. unfold checkBindCell, accepted.
  destruct (cell_value cell) as [b|e].
  - destruct (getColumnNamed M tableType (hd_error (getNames M b))) as [column|] eqn:E;
      cbn [fst].
    + rewrite checkCellType_nil. split.
      * intros [-> Hacc]. split; [reflexivity|].
        intros b' Hb. injection Hb as <-. exists column. now split.
      * intros [-> H]. split; [reflexivity|].
        destruct (H b eq_refl) as [column' [Hc Hacc]]. rewrite E in Hc.
        injection Hc as <-. exact Hacc.
    + split.
      * intros H. apply app_eq_nil in H. destruct H as [_ H]. discriminate H.
      * intros [_ H]. destruct (H b eq_refl) as [column' [Hc _]].
        rewrite E in Hc. discriminate Hc.
  - cbn [fst]. split.
    + intros ->. split; [reflexivity|]. intros b Hb. discriminate Hb.
    + now intros [-> _].
Qed.

Lemma checkBindCells_nil :
  forall (cs : list Cell) (conflicts : list Conflict) (matched : list ColumnType),
    fst (fold_left (checkBindCell M tableType context) cs (conflicts, matched)) = []
    <-> conflicts = [] /\ Forall accepted cs.
Proof.
  induction cs as [|cell rest IH]; intros conflicts matched; cbn [fold_left].
  - cbn [fst]. split; [intros ->; split; [reflexivity|constructor] | now intros [-> _]].
  - destruct (checkBindCell M tableType context (conflicts, matched) cell)
      as [conflicts' matched'] eqn:E.
    rewrite IH.
    assert (Hstep : conflicts' = [] <-> conflicts = [] /\ accepted cell).
    { rewrite <- (checkBindCell_nil cell conflicts matched). now rewrite E. }
    rewrite Hstep. split.
    + intros [[-> Hc] Hrest]. split; [reflexivity|now constructor].
    + intros [-> H]. inversion H; subst. repeat split; assumption.
Qed.

Lemma checkSpecified_nil :
  forall (cols : list ColumnType) (matched : list ColumnType) (conflicts : list Conflict),
    fold_left (checkSpecified M tableType row matched) cols conflicts = []
    <-> conflicts = []
        /\ Forall (fun column => hasDefault M column = false ->
                                 includes matched column = true) cols.
Proof.
  induction cols as [|column rest IH]; intros matched conflicts; cbn [fold_left].
  - split; [intros ->; split; [reflexivity|constructor] | now intros [-> _]].
  - rewrite IH. unfold checkSpecified.
    destruct (includes matched column) eqn:Ei; cbn [negb andb].
    + split.
      * intros [-> H]. split; [reflexivity|]. constructor; [intros _; exact Ei|exact H].
      * intros [-> H]. inversion H; subst. now split.
    + destruct (hasDefault M column) eqn:Ed; cbn [negb].
      * split.
        -- intros [-> H]. split; [reflexivity|].
           constructor; [intros C; congruence|exact H].
        -- intros [-> H]. inversion H; subst. now split.
      * split.
        -- intros [H _]. apply app_eq_nil in H. destruct H as [_ H]. discriminate H.
        -- intros [_ H]. inversion H as [|? ? Hc _]; subst.
           specialize (Hc Ed). congruence.
Qed.

Lemma checkPositional_nil :
  forall (cols : list ColumnType) (cs : list Cell) (conflicts : list Conflict),
    checkPositional M tableType row context cols cs conflicts = []
    <-> conflicts = []
        /\ List.length cols <= List.length cs
        /\ forall index column cell,
             nth_error cols index = Some column ->
             nth_error cs index = Some cell ->
             accepts M (getValueType M column context) (getType M cell context) context
             = true.
Proof.
  induction cols as [|column rest IH]; intros cs conflicts; cbn [checkPositional].
  - split.
    + intros ->. repeat split; [cbn; lia|].
      intros index column cell H. destruct index; discriminate H.
    + now intros [-> _].
  - destruct cs as [|cell cs'].
    + rewrite IH. split.
      * intros [H _]. apply app_eq_nil in H. destruct H as [_ H]. discriminate H.
      * intros [_ [H _]]. cbn in H. lia.
    + rewrite IH, checkCellType_nil. split.
      * intros [[-> Hacc] [Hlen Hall]]. repeat split; [cbn; lia|].
        intros index c0 cell0 Hc Hcell. destruct index as [|index'].
        -- cbn in Hc, Hcell. injection Hc as <-. injection Hcell as <-. exact Hacc.
        -- cbn in Hc, Hcell. exact (Hall index' c0 cell0 Hc Hcell).
      * intros [-> [Hlen Hall]]. repeat split.
        -- exact (Hall 0 column cell eq_refl eq_refl).
        -- cbn in Hlen. lia.
        -- intros index c0 cell0 Hc Hcell. exact (Hall (S index) c0 cell0 Hc Hcell).
Qed.

(** Cells past the last column are not looked at. *)
Lemma checkPositional_surplus :
  forall (other : Row) (cols : list ColumnType) (cs extra : list Cell)
         (conflicts : list Conflict),
    List.length cols <= List.length cs ->
    checkPositional M tableType other context cols (cs ++ extra) conflicts
    = checkPositional M tableType row context cols cs conflicts.
Proof.
  intros other. induction cols as [|column rest IH]; intros cs extra conflicts Hlen;
    cbn [checkPositional]; [reflexivity|].
  destruct cs as [|cell cs']; [cbn in Hlen; lia|].
  cbn [app]. apply IH. cbn in Hlen. lia.
Qed.

End ConflictFree.

(** An all-named row gets no conflict from [analyzeRow] exactly when every
    cell names a column of the table whose value type accepts the cell's
    type, and every column without a default is named by some cell.  The
    empty row counts as all-named. *)
Theorem analyzeRow_named_row_conflict_free :
  forall (M : Methods) (tableType : TableType) (row : Row) (context : Context),
    allBinds row = true ->
    (analyzeRow M tableType row context = []
     <-> (forall cell b,
             In cell (cells row) -> cell_value cell = inl b ->
             exists column,
               getColumnNamed M tableType (hd_error (getNames M b)) = Some column
               /\ accepts M (getValueType M column context) (getType M cell context) context
                  = true)
         /\ (forall column,
                In column (columns tableType) -> hasDefault M column = false ->
                existsb (namedBy M tableType column) (cells row) = true)).
Proof.
  intros M tableType row context Hbinds. unfold analyzeRow. rewrite Hbinds.
  destruct (fold_left (checkBindCell M tableType context) (cells row) ([], []))
    as [conflicts matched] eqn:E.
  rewrite checkSpecified_nil.
  assert (Hc : conflicts = [] <-> [] = (@nil Conflict)
                                  /\ Forall (fun cell => forall b, cell_value cell = inl b ->
                                       exists column,
                                         getColumnNamed M tableType (hd_error (getNames M b))
                                         = Some column
                                         /\ accepts M (getValueType M column context)
                                              (getType M cell context) context = true)
                                       (cells row)).
  { rewrite <- (checkBindCells_nil M tableType context (cells row) [] []). now rewrite E. }
  assert (Hm : forall column, includes matched column
                              = existsb (namedBy M tableType column) (cells row)).
  { intros column. change matched with (snd (conflicts, matched)). rewrite <- E.
    now rewrite NodeUtilProofs.checkBindCells_matched. }
  rewrite Hc, !Forall_forall. split.
  - intros [[_ Hcells] Hcols]. split.
    + intros cell b Hin Hb. exact (Hcells cell Hin b Hb).
    + intros column Hin Hdef. rewrite <- Hm. exact (Hcols column Hin Hdef).
  - intros [Hcells Hcols]. repeat split.
    + intros cell Hin b Hb. exact (Hcells cell b Hin Hb).
    + intros column Hin Hdef. rewrite Hm. exact (Hcols column Hin Hdef).
Qed.

(** The row [c: 3  a: 1  b: 2] of a table [a b c] of numbers gets no
    conflict, in whatever order it names the columns. *)
Lemma analyzeRow_named_row_conflict_free_witness :
  analyzeRow NodeUtilExamples.methods0 NodeUtilExamples.tableABC NodeUtilExamples.namedRowCAB
    NodeUtilExamples.context0 = [].
Proof.
  apply (proj2 (analyzeRow_named_row_conflict_free NodeUtilExamples.methods0
                  NodeUtilExamples.tableABC NodeUtilExamples.namedRowCAB
                  NodeUtilExamples.context0 eq_refl)).
  split.
  - intros cell b [<-|[<-|[<-|[]]]] Hb; cbn in Hb; injection Hb as <-.
    + exists NodeUtilExamples.columnC. split; reflexivity.
    + exists NodeUtilExamples.columnA. split; reflexivity.
    + exists NodeUtilExamples.columnB. split; reflexivity.
  - intros column [<-|[<-|[<-|[]]]] _; reflexivity.
Defined.

(** A non-empty all-unnamed row gets no conflict from [analyzeRow] exactly
    when it has at least as many cells as the table has columns and the
    value type of each column accepts the type of the cell at its
    position. *)
Theorem analyzeRow_unnamed_row_conflict_free :
  forall (M : Methods) (tableType : TableType) (row : Row) (context : Context),
    allBinds row = false ->
    allExpressions row = true ->
    (analyzeRow M tableType row context = []
     <-> List.length (columns tableType) <= List.length (cells row)
         /\ forall index column cell,
              nth_error (columns tableType) index = Some column ->
              nth_error (cells row) index = Some cell ->
              accepts M (getValueType M column context) (getType M cell context) context
              = true).
Proof.
  intros M tableType row context Hbinds Hexprs. unfold analyzeRow.
  rewrite Hbinds, Hexprs. rewrite checkPositional_nil. tauto.
Qed.

(** The row [1 2 3] of a table [a b c] of numbers gets no conflict. *)
Lemma analyzeRow_unnamed_row_conflict_free_witness :
  analyzeRow NodeUtilExamples.methods0 NodeUtilExamples.tableABC NodeUtilExamples.plainRow3
    NodeUtilExamples.context0 = [].
Proof.
  apply (proj2 (analyzeRow_unnamed_row_conflict_free NodeUtilExamples.methods0
                  NodeUtilExamples.tableABC NodeUtilExamples.plainRow3
                  NodeUtilExamples.context0 eq_refl eq_refl)).
  split; [cbn; lia|].
  intros index column cell Hc Hcell.
  destruct index as [|[|[|index]]]; cbn in Hc, Hcell;
    [ | | | destruct index; discriminate Hc];
    injection Hc as <-; injection Hcell as <-; reflexivity.
Defined.

(** In an all-unnamed row, the cells past the last column are ignored: a
    row with at least as many cells as the table has columns gets the same
    conflicts with further unnamed cells added at its end, whatever their
    types. *)
Theorem analyzeRow_surplus_cells_ignored :
  forall (M : Methods) (tableType : TableType) (row longer : Row) (context : Context)
         (extra : list Cell),
    allBinds row = false ->
    allExpressions longer = true ->
    cells longer = cells row ++ extra ->
    List.length (columns tableType) <= List.length (cells row) ->
    analyzeRow M tableType longer context = analyzeRow M tableType row context.
Proof.
  intros M tableType row longer context extra Hbinds Hexprs Hcells Hlen.
  unfold analyzeRow.
  assert (Hb : allBinds longer = false).
  { unfold allBinds in *. rewrite Hcells, forallb_app, Hbinds. reflexivity. }
  assert (He : allExpressions row = true).
  { unfold allExpressions in *. rewrite Hcells, forallb_app in Hexprs.
    now apply andb_true_iff in Hexprs. }
  rewrite Hb, Hexprs, Hbinds, He, Hcells.
  now apply checkPositional_surplus.
Qed.

(** The row [1 2 3 'z'] of a table [a b c] of numbers gets the conflicts of
    [1 2 3], that is none: the text in fourth place is not reported. *)
Lemma analyzeRow_surplus_cells_ignored_witness :
  analyzeRow NodeUtilExamples.methods0 NodeUtilExamples.tableABC NodeUtilExamples.plainRow4
    NodeUtilExamples.context0
  = analyzeRow NodeUtilExamples.methods0 NodeUtilExamples.tableABC NodeUtilExamples.plainRow3
      NodeUtilExamples.context0.
Proof.
  apply (analyzeRow_surplus_cells_ignored NodeUtilExamples.methods0
           NodeUtilExamples.tableABC NodeUtilExamples.plainRow3 NodeUtilExamples.plainRow4
           NodeUtilExamples.context0 [NodeUtilExamples.cellPlainText]).
  - reflexivity.
  - reflexivity.
  - reflexivity.
  - cbn. lia.
Defined.

End ConflictFreeRowProofs.

(** ** nodes/Select: conflicts, types and plans *)
Module SelectConflictProofs.
Import Select.

(** A loop that pushes a conflict for each item failing a test adds, in
    order, the conflicts of the failing items. *)
Lemma pushes_of_failing :
  forall (A C : Type) (passes : A -> bool) (conflict : A -> C) (items : list A)
         (conflicts : list C),
    fold_left
      (fun conflicts item => if passes item then conflicts else conflicts ++ [conflict item])
      items conflicts
    = conflicts ++ map conflict (filter (fun item => negb (passes item)) items).
Proof.
  intros A C passes conflict items.
  induction items as [|item rest IH]; intros conflicts; cbn [fold_left filter].
  - now rewrite app_nil_r.
  - rewrite IH. destruct (passes item); cbn [negb map]; [reflexivity|].
    now rewrite <- app_assoc.
Qed.

Lemma no_failing_item :
  forall (A : Type) (passes : A -> bool) (items : list A),
    filter (fun item => negb (passes item)) items = [] ->
    forall item, In item items -> passes item = true.
Proof.
  intros A passes items H item Hin.
  destruct (passes item) eqn:E; [reflexivity|].
  assert (In item (filter (fun item => negb (passes item)) items)) as C
    by (apply filter_In; split; [exact Hin|now rewrite E]).
  rewrite H in C. destruct C.
Qed.

(** A select without conflicts is well typed: its table expression is a
    table, every cell is a name of a column of that table, the type of the
    select is the table of those columns, none of them [undefined], and a
    query that parsed is boolean. *)
Theorem getConflicts_none_well_typed :
  forall (getColumnNamed : GetColumnNamed) (this : Select) (context : ConflictContext),
    getConflicts getColumnNamed this context = [] ->
    (exists columns selected,
        getType getColumnNamed (table this) context = TableType columns
        /\ map (cellColumn getColumnNamed columns) (cells (row this)) = map Some selected
        /\ getType getColumnNamed (SelectExpression this) context
           = TableType (map Some selected))
    /\ (forall cell, In cell (cells (row this)) -> isName (expression cell) = true)
    /\ (forall q, query this = inl q -> getType getColumnNamed q context = BooleanType).
Proof.
  intros gcn this context H. unfold getConflicts in H.
  rewrite pushes_of_failing in H.
  assert (Hq : forall (conflicts : list Conflict),
             match query this with
             | inl q => if isBooleanType (getType gcn q context) then conflicts
                        else conflicts ++ [NonBooleanQuery this]
             | inr _ => conflicts
             end = [] ->
             conflicts = []
             /\ forall q, query this = inl q -> getType gcn q context = BooleanType).
  { intros conflicts Hc. destruct (query this) as [q|u].
    - destruct (getType gcn q context) eqn:Eq; cbn in Hc;
        try (apply app_eq_nil in Hc; destruct Hc as [_ Hc]; discriminate Hc).
      split; [exact Hc|]. intros q' Hq'. injection Hq' as <-. exact Eq.
    - split; [exact Hc|]. intros q Hq'. discriminate Hq'. }
  destruct (getType gcn (table this) context) as [columns|n| |name] eqn:Et.
  - rewrite pushes_of_failing in H. apply Hq in H. destruct H as [H Hquery].
    apply app_eq_nil in H. destruct H as [H Hcols].
    cbn [app] in H. apply map_eq_nil in H. apply map_eq_nil in Hcols.
    split; [|split; [|exact Hquery]].
    + assert (Hall : forall cell, In cell (cells (row this)) ->
                       truthy (cellColumn gcn columns cell) = true)
        by (apply no_failing_item; exact Hcols).
      assert (Hsel : exists selected,
                 map (cellColumn gcn columns) (cells (row this)) = map Some selected).
      { clear -Hall. induction (cells (row this)) as [|cell rest IH].
        - exists []. reflexivity.
        - destruct IH as [selected Hs]; [intros c Hc; apply Hall; now right|].
          pose proof (Hall cell (or_introl eq_refl)) as Hc.
          destruct (cellColumn gcn columns cell) as [column|] eqn:E; [|discriminate Hc].
          exists (column :: selected). cbn [map]. now rewrite E, Hs. }
      destruct Hsel as [selected Hs]. exists columns, selected.
      repeat split; [exact Hs|].
      rewrite (SelectProofs.Select_getType_of_table gcn this context columns Et).
      now rewrite Hs.
    + apply no_failing_item. exact H.
  - apply Hq in H. destruct H as [H _]. apply app_eq_nil in H. destruct H as [H _].
    discriminate H.
  - apply Hq in H. destruct H as [H _]. apply app_eq_nil in H. destruct H as [H _].
    discriminate H.
  - apply Hq in H. destruct H as [H _]. apply app_eq_nil in H. destruct H as [H _].
    discriminate H.
Qed.

(** [table select a] on a table with the column [a] has no conflict, so it
    is well typed. *)
Lemma getConflicts_none_well_typed_witness :
  (exists columns selected,
      getType columnNamed (table SelectExamples.selectA) SelectExamples.context0
      = TableType columns
      /\ map (cellColumn columnNamed columns) (cells (row SelectExamples.selectA))
         = map Some selected
      /\ getType columnNamed (SelectExpression SelectExamples.selectA) SelectExamples.context0
         = TableType (map Some selected))
  /\ (forall cell, In cell (cells (row SelectExamples.selectA)) ->
        isName (expression cell) = true)
  /\ (forall q, query SelectExamples.selectA = inl q ->
        getType columnNamed q SelectExamples.context0 = BooleanType).
Proof.
  exact (getConflicts_none_well_typed columnNamed SelectExamples.selectA
           SelectExamples.context0 eq_refl).
Defined.

(** What [getConflicts] answers, as one list: the conflict on the table,
    then those on cells that are not names, then those on cells that name
    no column, then the conflict on the query. *)
Lemma getConflicts_in_order :
  forall (getColumnNamed : GetColumnNamed) (this : Select) (context : ConflictContext),
    getConflicts getColumnNamed this context
    = (match getType getColumnNamed (table this) context with
       | TableType _ => []
       | _ => [NotATable this]
       end
       ++ map ExpectedSelectName
            (filter (fun cell => negb (isName (expression cell))) (cells (row this)))
       ++ match getType getColumnNamed (table this) context with
          | TableType columns =>
              map (UnknownColumn (TableType columns))
                (filter (fun cell => negb (truthy (cellColumn getColumnNamed columns cell)))
                   (cells (row this)))
          | _ => []
          end)
      ++ match query this with
         | inl q =>
             if isBooleanType (getType getColumnNamed q context) then []
             else [NonBooleanQuery this]
         | inr _ => []
         end.
Proof.
  intros gcn this context. unfold getConflicts.
  rewrite pushes_of_failing.
  assert (Hq : forall conflicts : list Conflict,
             match query this with
             | inl q => if isBooleanType (getType gcn q context) then conflicts
                        else conflicts ++ [NonBooleanQuery this]
             | inr _ => conflicts
             end
             = conflicts ++ match query this with
                            | inl q => if isBooleanType (getType gcn q context) then []
                                       else [NonBooleanQuery this]
                            | inr _ => []
                            end).
  { intros conflicts. destruct (query this) as [q|u]; [|now rewrite app_nil_r].
    destruct (isBooleanType _); [now rewrite app_nil_r|reflexivity]. }
  rewrite Hq. f_equal.
  destruct (getType gcn (table this) context) as [columns|n| |name];
    try (cbn [app]; now rewrite app_nil_r).
  rewrite pushes_of_failing. cbn [app]. reflexivity.
Qed.

(** A column that is [undefined] in the type of a select never goes
    unreported: the cell at its position gets an UnknownColumn conflict. *)
Theorem getType_undefined_column_reported :
  forall (getColumnNamed : GetColumnNamed) (this : Select) (context : ConflictContext)
         (columns : list (option ColumnType)) (index : nat),
    getType getColumnNamed (SelectExpression this) context = TableType columns ->
    nth_error columns index = Some None ->
    exists cell,
      nth_error (cells (row this)) index = Some cell
      /\ In (UnknownColumn (getType getColumnNamed (table this) context) cell)
            (getConflicts getColumnNamed this context).
Proof.
  intros gcn this context columns index Htype Hnth.
  destruct (getType gcn (table this) context) as [tcolumns|n| |name] eqn:Et.
  - rewrite (SelectProofs.Select_getType_of_table gcn this context tcolumns Et) in Htype.
    injection Htype as <-.
    rewrite nth_error_map in Hnth.
    destruct (nth_error (cells (row this)) index) as [cell|] eqn:Ec; [|discriminate Hnth].
    cbn in Hnth. injection Hnth as Hcol.
    exists cell. split; [reflexivity|].
    rewrite getConflicts_in_order, Et.
    apply in_or_app. left. apply in_or_app. right. apply in_or_app. right.
    apply in_map. apply filter_In. split; [now apply nth_error_In with index|].
    now rewrite Hcol.
  - rewrite SelectProofs.Select_getType_not_a_table in Htype; [discriminate Htype|].
    intros c C. rewrite Et in C. discriminate C.
  - rewrite SelectProofs.Select_getType_not_a_table in Htype; [discriminate Htype|].
    intros c C. rewrite Et in C. discriminate C.
  - rewrite SelectProofs.Select_getType_not_a_table in Htype; [discriminate Htype|].
    intros c C. rewrite Et in C. discriminate C.
Qed.

(** [table select b] on a table without a column [b]: the type has an
    [undefined] column and the cell is reported. *)
Lemma getType_undefined_column_reported_witness :
  exists cell,
    nth_error (cells (row SelectExamples.selectB)) 0 = Some cell
    /\ In (UnknownColumn
             (getType columnNamed (table SelectExamples.selectB) SelectExamples.context0)
             cell)
          (getConflicts columnNamed SelectExamples.selectB SelectExamples.context0).
Proof.
  exact (getType_undefined_column_reported columnNamed SelectExamples.selectB
           SelectExamples.context0 [None] 0 eq_refl eq_refl).
Defined.

(** The type of a select is unknown exactly when [getConflicts] reports
    that its table expression is not a table. *)
Theorem getType_unknown_iff_not_a_table :
  forall (getColumnNamed : GetColumnNamed) (this : Select) (context : ConflictContext),
    In (NotATable this) (getConflicts getColumnNamed this context)
    <-> getType getColumnNamed (SelectExpression this) context
        = UnknownType (SelectExpression this).
Proof.
  intros gcn this context. rewrite getConflicts_in_order.
  destruct (getType gcn (table this) context) as [columns|n| |name] eqn:Et.
  - rewrite (SelectProofs.Select_getType_of_table gcn this context columns Et).
    split; [|intros H; discriminate H].
    intros H. exfalso. cbn [app] in H.
    apply in_app_or in H. destruct H as [H|H].
    + apply in_app_or in H. destruct H as [H|H];
        apply in_map_iff in H; destruct H as [cell [C _]]; discriminate C.
    + destruct (query this) as [q|u]; [|destruct H].
      destruct (isBooleanType _); [destruct H|].
      destruct H as [C|[]]. discriminate C.
  - split; [intros _|intros _; left; reflexivity].
    apply SelectProofs.Select_getType_not_a_table.
    intros c C. rewrite Et in C. discriminate C.
  - split; [intros _|intros _; left; reflexivity].
    apply SelectProofs.Select_getType_not_a_table.
    intros c C. rewrite Et in C. discriminate C.
  - split; [intros _|intros _; left; reflexivity].
    apply SelectProofs.Select_getType_not_a_table.
    intros c C. rewrite Et in C. discriminate C.
Qed.

(** *** Plans *)

Lemma run_app :
  forall (plan rest : list Step) (opened : list NodeId),
    run (plan ++ rest) opened
    = match run plan opened with
      | Some opened' => run rest opened'
      | None => None
      end.
Proof.
  induction plan as [|step plan' IH]; intros rest opened; [reflexivity|].
  cbn [app run]. destruct step as [n|n|k].
  - apply IH.
  - destruct opened as [|top below]; [reflexivity|].
    destruct (Nat.eqb top (expressionId n)); [apply IH|reflexivity].
  - apply IH.
Qed.

(** A plan closes what it opens, when the plans answered by the classes
    outside this file do. *)
Lemma select_plan_balanced :
  forall (e : Expression),
    foreignPlansWellBracketed e -> wellBracketed (compile e).
Proof.
  fix IH 1. intros [[i t s r q]|i n m|i m] H.
  - cbn [foreignPlansWellBracketed] in H. specialize (IH t H).
    intros opened. cbn [compile app run].
    rewrite run_app, IH. cbn [run expressionId]. now rewrite Nat.eqb_refl.
  - exact H.
  - exact H.
Qed.

(** The plan of an expression is well bracketed when the plans answered by
    the classes outside this file are, and the plan of a select is: the
    select is started; then comes the plan of its table expression, which
    runs to its end with the select as the innermost open node; then the
    select is finished.  The table expression may be a select in turn. *)
Theorem compile_well_bracketed :
  forall (e : Expression),
    foreignPlansWellBracketed e ->
    wellBracketed (compile e)
    /\ forall (this : Select),
         e = SelectExpression this ->
         compile e = [Start e] ++ compile (table this) ++ [Finish e]
         /\ wellBracketed (compile (table this))
         /\ forall opened,
              run ([Start e] ++ compile (table this)) opened
              = Some (expressionId e :: opened).
Proof.
  intros e H. split; [exact (select_plan_balanced e H)|].
  intros [i t s r q] ->. cbn [foreignPlansWellBracketed] in H.
  pose proof (select_plan_balanced t H) as Htable.
  split; [reflexivity|]. split; [exact Htable|].
  intros opened. cbn [app run table]. apply Htable.
Qed.

(** The plan of [(table select a) select a]. *)
Lemma compile_well_bracketed_witness :
  wellBracketed (compile (SelectExpression SelectExamples.selectTwice)).
Proof.
  apply (proj1 (compile_well_bracketed (SelectExpression SelectExamples.selectTwice)
                  ltac:(intros opened; reflexivity))).
Defined.

End SelectConflictProofs.

(** ** nodes/SetLiteral: plans and ends *)
Module SetLiteralPlanProofs.
Import SetLiteral.

(** Induction on expressions, through the elements of set literals. *)
Lemma Expression_nested_ind :
  forall (P : Expression -> Prop),
    (forall i o items c, Forall P items -> P (SetLiteralExpression (MkSetLiteral i o items c))) ->
    (forall i m, P (Foreign i m)) ->
    forall e, P e.
Proof.
  intros P Hset Hforeign.
  exact (fix go (e : Expression) : P e :=
           match e with
           | SetLiteralExpression (MkSetLiteral i o items c) =>
               Hset i o items c
                 ((fix all (l : list Expression) : Forall P l :=
                     match l with
                     | [] => Forall_nil P
                     | item :: rest => Forall_cons item (go item) (all rest)
                     end) items)
           | Foreign i m => Hforeign i m
           end).
Qed.

Lemma run_plan_app :
  forall (plan rest : list Step) (opened : list NodeId),
    run (plan ++ rest) opened
    = match run plan opened with
      | Some opened' => run rest opened'
      | None => None
      end.
Proof.
  induction plan as [|step plan' IH]; intros rest opened; [reflexivity|].
  cbn [app run]. destruct step as [n|n|k].
  - apply IH.
  - destruct opened as [|top below]; [reflexivity|].
    destruct (Nat.eqb top (expressionId n)); [apply IH|reflexivity].
  - apply IH.
Qed.

Lemma wellBracketed_concat :
  forall (plans : list (list Step)),
    Forall wellBracketed plans -> wellBracketed (List.concat plans).
Proof.
  induction plans as [|plan rest IH]; intros H opened; [reflexivity|].
  inversion H as [|? ? Hplan Hrest]; subst.
  cbn [List.concat]. rewrite run_plan_app, Hplan. now apply IH.
Qed.

(** The plans of the elements of a literal close what they open, when
    the plans answered by the classes outside this file do. *)
Lemma literal_plan_balanced :
  forall (context : Context) (e : Expression),
    foreignPlansWellBracketed context e ->
    wellBracketed (compile e context)
    /\ forall this,
         e = SetLiteralExpression this ->
         Forall (fun item => wellBracketed (compile item context)) (values this).
Proof.
  intros context e. induction e as [i o items c IH|i m] using Expression_nested_ind.
  - intros H.
    assert (Hitems : Forall (fun item => wellBracketed (compile item context)) items).
    { cbn [foreignPlansWellBracketed] in H.
      clear -IH H. induction items as [|item rest IHr]; constructor.
      - inversion IH as [|? ? Hitem Hrest]; subst. destruct H as [H _].
        exact (proj1 (Hitem H)).
      - inversion IH as [|? ? Hitem Hrest]; subst. destruct H as [_ H]. auto. }
    split.
    + intros opened. cbn [compile app run].
      rewrite SetLiteralProofs.compile_items_concat. cbn [app].
      rewrite run_plan_app.
      assert (Hconcat : wellBracketed
                          (List.concat (map (fun item => compile item context) items))).
      { apply wellBracketed_concat. apply Forall_map. exact Hitems. }
      rewrite Hconcat. cbn [run expressionId id]. now rewrite Nat.eqb_refl.
    + intros this Hthis. injection Hthis as <-. exact Hitems.
  - intros H. split; [exact H|]. intros this Hthis. discriminate Hthis.
Qed.

(** The plan of an expression is well bracketed when the plans answered by
    the classes outside this file are, and the plan of a set literal is:
    the literal is started; then come the plans of its elements, in their
    order, each of which runs to its end, the literal being the innermost
    open node before and after them; then the literal is finished.  An
    element may be a set literal in turn. *)
Theorem SetLiteral_plan_well_bracketed :
  forall (context : Context) (e : Expression),
    foreignPlansWellBracketed context e ->
    wellBracketed (compile e context)
    /\ forall (this : SetLiteral),
         e = SetLiteralExpression this ->
         let elements := map (fun item => compile item context) (values this) in
         compile e context = [Start e] ++ List.concat elements ++ [Finish e]
         /\ Forall wellBracketed elements
         /\ forall opened,
              run ([Start e] ++ List.concat elements) opened
              = Some (expressionId e :: opened).
Proof.
  intros context e H. destruct (literal_plan_balanced context e H) as [Hplan Hitems].
  split; [exact Hplan|].
  intros this -> elements. specialize (Hitems this eq_refl).
  assert (Helements : Forall wellBracketed elements)
    by (apply Forall_map; exact Hitems).
  split; [|split; [exact Helements|]].
  - destruct this as [i o items c]. cbn [compile values].
    rewrite SetLiteralProofs.compile_items_concat. reflexivity.
  - intros opened. cbn [app run]. apply wellBracketed_concat. exact Helements.
Qed.

(** The plan of [{ { 1 2 } 3 }]. *)
Lemma SetLiteral_plan_well_bracketed_witness :
  wellBracketed
    (compile (SetLiteralExpression SetLiteralExamples.nested) SetLiteralExamples.context0).
Proof.
  apply (proj1 (SetLiteral_plan_well_bracketed SetLiteralExamples.context0
                  (SetLiteralExpression SetLiteralExamples.nested)
                  ltac:(cbn; repeat split; intros opened; reflexivity))).
Defined.

(** The children of a set literal begin with the node [getStart] answers
    and end with the node [getFinish] answers: the closing token when the
    literal has one, else its last element, else the opening token. *)
Theorem getStart_getFinish_ends :
  forall (this : SetLiteral),
    hd_error (children this) = Some (TokenNode (getStart this))
    /\ nth_error (children this) (List.length (children this) - 1)
       = Some (getFinish this).
Proof.
  intros [i o items c]. split; [reflexivity|].
  unfold children, getFinish. cbn [open values close].
  set (tail := match c with Some c0 => [TokenNode c0] | None => [] end).
  replace (List.length (TokenNode o :: map ExpressionNode items ++ tail) - 1)
    with (List.length (map ExpressionNode items ++ tail)) by (cbn [List.length]; lia).
  rewrite length_app, length_map. unfold tail. clear tail.
  destruct c as [c|]; cbn [List.length].
  - replace (List.length items + 1) with (S (List.length items)) by lia.
    cbn [nth_error]. rewrite nth_error_app2 by (rewrite length_map; lia).
    rewrite length_map, Nat.sub_diag. reflexivity.
  - rewrite Nat.add_0_r, app_nil_r.
    destruct items as [|item rest]; [reflexivity|].
    cbn [List.length Nat.sub]. rewrite Nat.sub_0_r.
    change (nth_error (TokenNode o :: map ExpressionNode (item :: rest))
              (S (List.length rest)))
      with (nth_error (map ExpressionNode (item :: rest)) (List.length rest)).
    rewrite nth_error_map.
    destruct (nth_error (item :: rest) (List.length rest)) as [v|] eqn:E; [reflexivity|].
    apply nth_error_None in E. cbn in E. lia.
Qed.

End SetLiteralPlanProofs.

(** ** nodes/ConversionDefinition: edits offered on the children *)
Module ConversionEditProofs.
Import ConversionDefinition.

Lemma distinct_five :
  forall (a b c d e : NodeId),
    NoDup [a; b; c; d; e] ->
    a <> c /\ a <> d /\ a <> e /\ b <> c /\ b <> d /\ b <> e
    /\ c <> d /\ c <> e /\ d <> e.
Proof.
  intros a b c d e H.
  inversion H as [|? ? Ha H1]; subst. inversion H1 as [|? ? Hb H2]; subst.
  inversion H2 as [|? ? Hc H3]; subst. inversion H3 as [|? ? Hd H4]; subst.
  cbn in Ha, Hb, Hc, Hd. intuition congruence.
Qed.

(** On the children of a conversion definition, distinct objects, a
    replacement and a removal are offered for the same ones: the input
    type, the output type and the expression, never the documentation or
    the arrow.  A removal puts a type placeholder in place of a type and an
    expression placeholder in place of the expression, and only the
    expression is the definition's block. *)
Theorem edits_offered_on_same_children :
  forall (getPossibleTypeReplacements : Node -> Context -> list Transform)
         (getExpressionReplacements :
            ConversionDefinition -> Expression -> Context -> list Transform)
         (this : ConversionDefinition) (context : Context) (index : nat) (child : Node)
         (next : NodeId),
    nth_error (children this) index = Some child ->
    NoDup (map identity (children this)) ->
    truthy (getChildReplacement getPossibleTypeReplacements getExpressionReplacements
              this child context)
    = Nat.leb 2 index
    /\ fst (getChildRemoval this child context next)
       = match index with
         | 0 | 1 => None
         | 2 | 3 => Some (Replace context child (TypePlaceholder next))
         | _ => Some (Replace context child (ExpressionPlaceholder next))
         end
    /\ isBlockChild this child = Nat.eqb index 4.
Proof.
  intros types expressions this context index child next Hnth Hnd.
  unfold children in *. cbn [map] in Hnd.
  apply distinct_five in Hnd.
  destruct Hnd as (H1 & H2 & H3 & H4 & H5 & H6 & H7 & H8 & H9).
  unfold getChildReplacement, getChildRemoval, isBlockChild, isChild.
  unfold identity, Node_HasId, Type_HasId, Expression_HasId, Docs_HasId, Token_HasId in *.
  cbn [nodeId] in *.
  apply Nat.eqb_neq in H1, H2, H3, H4, H5, H6, H7, H8, H9.
  destruct index as [|[|[|[|[|index]]]]]; cbn in Hnth;
    try (destruct index; discriminate Hnth); injection Hnth as <-; cbn [nodeId].
  - rewrite H1, H2, H3. repeat split.
  - rewrite H4, H5, H6. repeat split.
  - rewrite Nat.eqb_refl, H8. repeat split.
  - rewrite Nat.eqb_refl, orb_true_r, H9. repeat split.
  - rewrite (Nat.eqb_sym _ (type_id (input this))), H8.
    rewrite (Nat.eqb_sym _ (type_id (output this))), H9.
    rewrite Nat.eqb_refl. repeat split.
Qed.

(** On the conversion [→ # '' body]: the arrow cannot be removed, the
    output type can. *)
Lemma edits_offered_on_same_children_witness :
  fst (getChildRemoval ConversionDefinitionExamples.conversion0
         (TokenNode ConversionDefinitionExamples.arrow0)
         ConversionDefinitionExamples.atTopLevel 100) = None
  /\ fst (getChildRemoval ConversionDefinitionExamples.conversion0
            (TypeNode ConversionDefinitionExamples.textType)
            ConversionDefinitionExamples.atTopLevel 100)
     = Some (Replace ConversionDefinitionExamples.atTopLevel
               (TypeNode ConversionDefinitionExamples.textType) (TypePlaceholder 100)).
Proof.
  assert (distinct : NoDup [11; 12; 13; 14; 15])
    by (repeat constructor; cbn; intuition discriminate).
  split.
  - exact (proj1 (proj2 (edits_offered_on_same_children (fun _ _ => []) (fun _ _ _ => [])
                    ConversionDefinitionExamples.conversion0
                    ConversionDefinitionExamples.atTopLevel 1
                    (TokenNode ConversionDefinitionExamples.arrow0) 100 eq_refl distinct))).
  - exact (proj1 (proj2 (edits_offered_on_same_children (fun _ _ => []) (fun _ _ _ => [])
                    ConversionDefinitionExamples.conversion0
                    ConversionDefinitionExamples.atTopLevel 3
                    (TypeNode ConversionDefinitionExamples.textType) 100 eq_refl distinct))).
Defined.

End ConversionEditProofs.
